(** * Message flags and unread huddles of zulip-mobile: reducers and their properties

    The flags store (the reducer of [src/chat/FetchError.js]) keeps, per flag
    name, an object whose keys are the ids of the messages carrying the flag.  The
    unread-huddles store keeps, per group conversation, the ids of its unread
    messages.  Both are Redux reducers: functions from a state and an action
    to a state, which hand back the very object they were given when they have
    nothing to change.

    JavaScript objects keyed by flag names are association lists in insertion
    order, objects keyed by message ids are [gmap Z bool], and the identity of
    a state object is an address paired with its fields. *)

From stdpp Require Import base option list strings gmap sorting pretty.

Open Scope Z_scope.
Open Scope string_scope.

(** ** Objects keyed by strings

    Property order of a JavaScript object is insertion order for keys that are
    not array indices; flag names are words, so [Object.keys] is the list of
    first components in order. *)
Module JsObject.

Definition t (V : Type) : Type := list (string * V).

(** [o[k]]: [None] stands for [undefined]. *)
Fixpoint get {V} (o : t V) (k : string) : option V :=
  match o with
  | [] => None
  | (k', v) :: o' => if decide (k = k') then Some v else get o' k
  end.

(** [o[k] = v]: an existing property keeps its position, a new one goes last. *)
Fixpoint set {V} (o : t V) (k : string) (v : V) : t V :=
  match o with
  | [] => [(k, v)]
  | (k', v') :: o' =>
      if decide (k = k') then (k, v) :: o' else (k', v') :: set o' k v
  end.

(** [Object.keys(o)]. *)
Definition keys {V} (o : t V) : list string := o.*1.

(** [{ ...a, ...b }]: a copy of [a] into which the properties of [b] are
    assigned one by one. *)
Definition spread {V} (a b : t V) : t V :=
  foldl (λ acc kv, set acc kv.1 kv.2) a b.

(** No property name occurs twice. *)
Definition wf {V} (o : t V) : Prop := NoDup (keys o).

End JsObject.

(** ** Object identity, allocation and exceptions *)

Definition loc := positive.

(** An object of the heap: where it lives and what it holds.  State objects
    are never written to after they are built, so the fields travel with the
    address. *)
Record Ref (A : Type) := mkRef { addr : loc; obj : A }.
Arguments mkRef {A} _ _.
Arguments addr {A} _.
Arguments obj {A} _.

Inductive Result (A : Type) :=
| Ok (a : A)
| Throw (message : string).
Arguments Ok {A} _.
Arguments Throw {A} _.

(** A computation that may allocate (it is given the next free address and
    returns the next one) and may throw. *)
Definition M (A : Type) : Type := loc → Result (A * loc).

Definition ret {A} (a : A) : M A := λ next, Ok (a, next).

Definition bind {A B} (k : A → M B) (m : M A) : M B :=
  λ next, match m next with
          | Ok (a, next') => k a next'
          | Throw e => Throw e
          end.

#[global] Instance M_ret : MRet M := @ret.
#[global] Instance M_bind : MBind M := @bind.

(** An object literal: a new object at the next free address. *)
Definition alloc {A} (fields : A) : M (Ref A) :=
  λ next, Ok (mkRef next fields, Pos.succ next).

(** [invariant(value, message)] of the [invariant] package, for a value that
    is either [undefined] or an object (objects, empty arrays included, are
    truthy). *)
Definition invariant {A} (value : option A) (message : string) : M A :=
  λ next, match value with
          | Some a => Ok (a, next)
          | None => Throw message
          end.

(** ** Messages and actions *)

Inductive MessageType := stream | private.

#[global] Instance MessageType_eq_dec : EqDecision MessageType.
Proof. solve_decision. Defined.

Record Message := mkMessage {
  id : Z;
  type : MessageType;
  sender_id : Z;
  recipients : list Z;
  flags : option (list string)
}.

(** One huddle's unread messages. *)
Record UnreadHuddle := mkUnreadHuddle {
  user_ids_string : string;
  unread_message_ids : list Z
}.

Definition UnreadHuddlesState := list UnreadHuddle.

(** The payload of an [EVENT_UPDATE_MESSAGE_FLAGS] action.  [allMessages] is
    given by its keys, [Object.keys(action.allMessages).map(Number)];
    [message_details] gives the other participants of a message. *)
Record UpdateMessageFlags := mkUpdateMessageFlags {
  all : bool;
  allMessages : list Z;
  messages : list Z;
  flag : string;
  op : string;
  message_details : option (gmap Z (list Z))
}.

Inductive Action :=
| REGISTER_COMPLETE (huddles : Ref UnreadHuddlesState)
| LOGOUT
| LOGIN_SUCCESS
| ACCOUNT_SWITCH
| MESSAGE_FETCH_COMPLETE (messages : list Message)
| EVENT_NEW_MESSAGE (message : Message)
| EVENT_UPDATE_MESSAGE_FLAGS (action : UpdateMessageFlags)
| OTHER_ACTION.

(** ** The flags store *)

(** The messages carrying one flag: [{ [id]: true }]. *)
Abbreviation PerFlagState := (gmap Z bool).

Definition FlagsState := JsObject.t PerFlagState.

(** Truthiness of [perFlag[id]]. *)
Definition truthy (v : option bool) : bool :=
  match v with
  | Some true => true
  | _ => false
  end.

(** Modelled from the spec: [deeperMerge] of [utils/misc], which is not among
    the sources and which the specification does not describe.  It is taken
    to be what its name and its call, [deeperMerge(state, newState)], say: a
    merge one level deep.  The result has the properties of both objects, first those of the
    first; where both have a property the two values are themselves merged,
    [{ ...obj1[key], ...obj2[key] }], the second winning. *)
Definition deeperMerge (obj1 obj2 : FlagsState) : FlagsState :=
  let mergedKeys :=
    foldl (λ (seen : list string) key,
             if decide (key ∈ seen) then seen else (seen ++ [key])%list)
          [] (JsObject.keys obj1 ++ JsObject.keys obj2)%list in
  foldl (λ acc key,
           match JsObject.get obj1 key, JsObject.get obj2 key with
           | None, Some v2 => JsObject.set acc key v2
           | Some v1, None => JsObject.set acc key v1
           | Some v1, Some v2 => JsObject.set acc key (v2 ∪ v1)
           | None, None => acc
           end) [] mergedKeys.

Module flagsReducer.

Definition initialState_fields : FlagsState :=
  [ ("read", ∅); ("starred", ∅); ("collapsed", ∅); ("mentioned", ∅);
    ("wildcard_mentioned", ∅); ("has_alert_word", ∅); ("historical", ∅) ].

(** The module-level constant [initialState]: one object, allocated when the
    module loads. *)
Definition initialState : Ref FlagsState := mkRef 1%positive initialState_fields.

Definition addFlagsForMessages (state : Ref FlagsState) (messages : list Z)
    (flags : list string) : M (Ref FlagsState) :=
  if bool_decide (length messages = 0%nat) || bool_decide (length flags = 0%nat)
  then mret state
  else
    let newState : FlagsState :=
      foldl (λ newState flag,
               let perFlag :=
                 foldl (λ perFlag message, <[message := true]> perFlag)
                       (default ∅ (JsObject.get (obj state) flag)) messages in
               JsObject.set newState flag perFlag)
            [] flags in
    alloc (JsObject.spread (obj state) newState).

Definition removeFlagForMessages (state : Ref FlagsState) (messages : list Z)
    (flag : string) : M (Ref FlagsState) :=
  let newStateForFlag :=
    foldl (λ o message, delete message o)
          (default ∅ (JsObject.get (obj state) flag)) messages in
  alloc (JsObject.set (obj state) flag newStateForFlag).

(** The two nested [forEach] loops of [processFlagsForMessages], threading
    [newState] and [stateChanged]. *)
Definition collectNewFlags (state : FlagsState) (messages : list Message)
    : FlagsState * bool :=
  foldl (λ acc msg,
           foldl (λ '(newState, stateChanged) flag,
                    if negb (match JsObject.get state flag with
                             | Some perFlag => truthy (perFlag !! id msg)
                             | None => false
                             end)
                    then
                      let perFlag := default ∅ (JsObject.get newState flag) in
                      (JsObject.set newState flag (<[id msg := true]> perFlag),
                       true)
                    else (newState, stateChanged))
                 acc (default [] (flags msg)))
        ([], false) messages.

Definition processFlagsForMessages (state : Ref FlagsState)
    (messages : list Message) : M (Ref FlagsState) :=
  let '(newState, stateChanged) := collectNewFlags (obj state) messages in
  if stateChanged then alloc (deeperMerge (obj state) newState) else mret state.

Definition eventUpdateMessageFlags (state : Ref FlagsState)
    (action : UpdateMessageFlags) : M (Ref FlagsState) :=
  if all action && bool_decide (op action = "add") then
    addFlagsForMessages initialState (allMessages action) [flag action]
  else if all action && bool_decide (op action = "remove") then
    alloc (JsObject.set (obj state) (flag action) ∅)
  else if bool_decide (op action = "add") then
    addFlagsForMessages state (messages action) [flag action]
  else if bool_decide (op action = "remove") then
    removeFlagForMessages state (messages action) (flag action)
  else mret state.

(** The default export.  (The default value of [state], [initialState], is
    the caller's business: the state is always given here.) *)
Definition reducer (state : Ref FlagsState) (action : Action)
    : M (Ref FlagsState) :=
  match action with
  | REGISTER_COMPLETE _ | LOGOUT | LOGIN_SUCCESS | ACCOUNT_SWITCH =>
      mret initialState
  | MESSAGE_FETCH_COMPLETE messages => processFlagsForMessages state messages
  | EVENT_NEW_MESSAGE message =>
      flags ← invariant (flags message)
                "message in EVENT_NEW_MESSAGE must have flags";
      addFlagsForMessages state [id message] flags
  | EVENT_UPDATE_MESSAGE_FLAGS action => eventUpdateMessageFlags state action
  | OTHER_ACTION => mret state
  end.

End flagsReducer.

(** [flagsStateToStringList] of the message renderer:
    [Object.keys(flags).filter(key => flags[key][id])]. *)
Definition flagsStateToStringList (flags : FlagsState) (id : Z) : list string :=
  List.filter (λ key, match JsObject.get flags key with
                      | Some perFlag => truthy (perFlag !! id)
                      | None => false
                      end)
              (JsObject.keys flags).

(** ** The unread-huddles store

    The reducer's own file is not among the sources; its test suite is, and the
    definitions below follow the specification, with the test suite deciding
    what the specification leaves open. *)
Module unreadHuddlesReducer.

(** Modelled from the spec: [NULL_ARRAY] of [nullObjects] (not among the
    sources), "the canonical empty list": the one empty array every reset
    hands out, as the test 'when "all" is true reset state' has it. *)
Definition NULL_ARRAY : Ref UnreadHuddlesState := mkRef 2%positive [].

(** Modelled from the spec: the store starts, and is reset to, "an
    empty/initial form". *)
Definition initialState : Ref UnreadHuddlesState := NULL_ARRAY.

(** Modelled from the spec: the key of a conversation, which the helpers of
    [utils/recipient] (not among the sources) compute: "sorted numeric ids,
    comma-joined, always including the local user's id". *)
Definition pmUnreadsKey (ownUserId : Z) (user_ids : list Z) : string :=
  String.concat ","
    (pretty <$> merge_sort Z.le (remove_dups (ownUserId :: user_ids))).

(** Modelled from the spec: adding one message id to the entry of a key (the
    helper of [unreadHelpers], not among the sources): "if an entry for that
    key exists, append the message id if absent; else append a new entry with
    that single id", and the same object is returned when nothing changes.
    [place] says where a new id goes among the ids of an existing entry. *)
Definition addItemToHuddleArray (place : list Z → Z → list Z)
    (state : Ref UnreadHuddlesState) (key : string) (id : Z)
    : M (Ref UnreadHuddlesState) :=
  match list_find (λ h, user_ids_string h = key) (obj state) with
  | Some (index, h) =>
      if decide (id ∈ unread_message_ids h) then mret state
      else alloc (<[index := mkUnreadHuddle key (place (unread_message_ids h) id)]>
                    (obj state))
  | None => alloc (obj state ++ [mkUnreadHuddle key [id]])%list
  end.

(** Modelled from the spec: a new message goes last, "append the message id
    if absent". *)
Definition appended (ids : list Z) (id : Z) : list Z := (ids ++ [id])%list.

(** Modelled from the spec: a message marked unread again is added "into the
    matching entry's set"; the specification leaves its place open, and the
    test 'when operation is "remove", add to unreads' has the ids in
    ascending order. *)
Definition inOrder (ids : list Z) (id : Z) : list Z :=
  merge_sort Z.le (ids ++ [id])%list.

(** Modelled from the spec: "delete the given ids from every entry's set", the
    same object being returned when no entry holds any of them.  Entries left
    without ids are dropped, as the test 'if ids are in state remove them'
    has it. *)
Definition removeItemsDeeply (state : Ref UnreadHuddlesState) (ids : list Z)
    : M (Ref UnreadHuddlesState) :=
  if forallb (λ h, forallb (λ i, bool_decide (i ∉ ids)) (unread_message_ids h))
             (obj state)
  then mret state
  else
    alloc (List.filter (λ h, negb (bool_decide (unread_message_ids h = [])))
             ((λ h, mkUnreadHuddle (user_ids_string h)
                      (List.filter (λ i, bool_decide (i ∉ ids))
                                   (unread_message_ids h)))
                <$> obj state)).

(** Modelled from the spec: "if the message is not a direct/group conversation
    message, or already carries the "read" flag, or the sender is the local
    user, no-op.  Otherwise compute the participant key from the message's
    recipient list [...]". *)
Definition eventNewMessage (state : Ref UnreadHuddlesState) (message : Message)
    (ownUserId : Z) : M (Ref UnreadHuddlesState) :=
  if negb (bool_decide (type message = private))
     || bool_decide ("read" ∈ default [] (flags message))
     || bool_decide (sender_id message = ownUserId)
  then mret state
  else addItemToHuddleArray appended state
         (pmUnreadsKey ownUserId (recipients message)) (id message).

(** A [for ... of] loop whose body may allocate. *)
Fixpoint forEachM {A S} (body : S → A → M S) (s : S) (l : list A) : M S :=
  match l with
  | [] => mret s
  | x :: l' => s' ← body s x; forEachM body s' l'
  end.

(** Modelled from the spec: a change of the "read" flag ("other flag-kinds are
    a guaranteed no-op for this store"): on "remove", "for each affected
    message id, resolve its participant key [from the] per-message recipient
    detail supplied alongside the event and add the id into the matching (or
    newly created) entry's set; duplicates are suppressed"; on "add" with an
    id list, delete the ids; on "add" for all messages, "reset the entire list
    to empty".  An id without recipient detail has no key and is passed
    over. *)
Definition eventUpdateMessageFlags (state : Ref UnreadHuddlesState)
    (action : UpdateMessageFlags) (ownUserId : Z) : M (Ref UnreadHuddlesState) :=
  if negb (bool_decide (flag action = "read")) then mret state
  else if bool_decide (op action = "remove") then
    forEachM (λ newState id,
                match default ∅ (message_details action) !! id with
                | Some user_ids =>
                    addItemToHuddleArray inOrder newState
                      (pmUnreadsKey ownUserId user_ids) id
                | None => mret newState
                end)
             state (messages action)
  else if bool_decide (op action = "add") then
    if all action then mret initialState
    else removeItemsDeeply state (messages action)
  else mret state.

(** Modelled from the spec: the reducer.  A full resync takes "the
    server-provided list [...] verbatim"; the other session boundaries reset
    the store. *)
Definition reducer (state : Ref UnreadHuddlesState) (action : Action)
    (ownUserId : Z) : M (Ref UnreadHuddlesState) :=
  match action with
  | REGISTER_COMPLETE huddles => mret huddles
  | LOGOUT | LOGIN_SUCCESS | ACCOUNT_SWITCH => mret initialState
  | EVENT_NEW_MESSAGE message => eventNewMessage state message ownUserId
  | EVENT_UPDATE_MESSAGE_FLAGS action =>
      eventUpdateMessageFlags state action ownUserId
  | MESSAGE_FETCH_COMPLETE _ | OTHER_ACTION => mret state
  end.

End unreadHuddlesReducer.

(** The first address free once the modules are loaded. *)
Definition firstFree : loc := 3%positive.

(** ** Vocabulary of the properties *)

(** Message [id] carries [flag] according to [state]: [state[flag][id]] is
    there and truthy. *)
Definition recorded (state : FlagsState) (flag : string) (id : Z) : bool :=
  match JsObject.get state flag with
  | Some perFlag => truthy (perFlag !! id)
  | None => false
  end.

(** Some message of the batch has this id and carries this flag. *)
Definition broughtBy (messages : list Message) (flag : string) (i : Z) : Prop :=
  ∃ msg, msg ∈ messages ∧ id msg = i ∧ flag ∈ default [] (flags msg).

(** The seven flags the client knows. *)
Definition knownFlags : list string :=
  JsObject.keys flagsReducer.initialState_fields.

(** A flag change for the listed messages. *)
Definition FlagChangeScoped (op flag : string) (ids : list Z)
    (details : option (gmap Z (list Z))) : Action :=
  EVENT_UPDATE_MESSAGE_FLAGS
    {| all := false; allMessages := []; messages := ids; flag := flag;
       op := op; message_details := details |}.

(** A flag change for all messages; [universe] lists the ids of the messages
    the client holds. *)
Definition FlagChangeAll (op flag : string) (universe : list Z) : Action :=
  EVENT_UPDATE_MESSAGE_FLAGS
    {| all := true; allMessages := universe; messages := []; flag := flag;
       op := op; message_details := None |}.

(** A state in which message 5 is starred and nothing else is flagged. *)
Definition starredFive : Ref FlagsState :=
  mkRef 3%positive
    (JsObject.set flagsReducer.initialState_fields "starred" {[ 5 := true ]}).

(** A state in which message 1 is read and nothing else is flagged. *)
Definition readOne : Ref FlagsState :=
  mkRef 3%positive
    (JsObject.set flagsReducer.initialState_fields "read" {[ 1 := true ]}).

(** A stream message with the given id and flag list. *)
Definition streamMessage (i : Z) (fl : option (list string)) : Message :=
  {| id := i; type := stream; sender_id := 7; recipients := []; flags := fl |}.

(** The (message id, flag) pairs of a batch, in the order in which the loops
    of [processFlagsForMessages] come to them. *)
Definition flagPairs (messages : list Message) : list (Z * string) :=
  messages ≫= λ msg, (λ flag, (id msg, flag)) <$> default [] (flags msg).

(** The body of the inner loop of [processFlagsForMessages], for one pair. *)
Definition collectStep (state : FlagsState) (acc : FlagsState * bool)
    (p : Z * string) : FlagsState * bool :=
  if negb (recorded state p.2 p.1)
  then (JsObject.set acc.1 p.2
          (<[p.1 := true]> (default ∅ (JsObject.get acc.1 p.2))), true)
  else acc.

(** The two states record the same flags for the same messages. *)
Definition sameFlags (a b : FlagsState) : Prop :=
  ∀ flag i, recorded a flag i = recorded b flag i.

(** The reading of the assertion that asks for a non-empty flag list: a new
    message without one makes the reducer throw. *)
Definition nonempty_flags_required_as_claimed
    (state : Ref FlagsState) (message : Message) (next : loc) : Prop :=
  (¬ ∃ f fl, flags message = Some (f :: fl)) →
  ∃ e, flagsReducer.reducer state (EVENT_NEW_MESSAGE message) next = Throw e.

(** The reading of a message fetch as a replacement of the state: afterwards
    the state records exactly what the batch brings. *)
Definition fetch_replaces_state_as_claimed
    (state : Ref FlagsState) (messages : list Message) (next : loc) : Prop :=
  ∃ state' next',
    flagsReducer.reducer state (MESSAGE_FETCH_COMPLETE messages) next
      = Ok (state', next')
    ∧ ∀ flag i, recorded (obj state') flag i = true ↔ broughtBy messages flag i.

(** The reading of reference stability that covers every event without
    effect: if the flags recorded afterwards are those recorded before, the
    reducer has returned the object it was given. *)
Definition noop_returns_input_as_claimed
    (state : Ref FlagsState) (action : Action) (next : loc) : Prop :=
  ∀ state' next',
    flagsReducer.reducer state action next = Ok (state', next') →
    sameFlags (obj state') (obj state) →
    addr state' = addr state.

(** Adding a flag to some messages and removing it from the same messages,
    without a condition on the state before. *)
Definition add_then_remove_restores_as_claimed
    (state : Ref FlagsState) (flag : string) (ids : list Z) (next : loc) : Prop :=
  ∃ state1 next1 state2 next2,
    flagsReducer.reducer state (FlagChangeScoped "add" flag ids None) next
      = Ok (state1, next1)
    ∧ flagsReducer.reducer state1 (FlagChangeScoped "remove" flag ids None) next1
      = Ok (state2, next2)
    ∧ sameFlags (obj state2) (obj state).

(** Every flag the client knows has its property in the state. *)
Definition hasKnownFlags (state : FlagsState) : Prop :=
  ∀ flag, flag ∈ knownFlags → is_Some (JsObject.get state flag).

(** The unread huddles of the example: one conversation of users 0, 1 and 2
    with three unread messages. *)
Definition huddle012 : Ref UnreadHuddlesState :=
  mkRef 3%positive [ mkUnreadHuddle "0,1,2" [1; 2; 3] ].

(** The recipient detail of the example: messages 10 and 11 went to users 1
    and 2, message 12 to users 1, 2 and 3. *)
Definition detail_10_11_12 : gmap Z (list Z) :=
  {[ 10 := [1; 2]; 11 := [1; 2]; 12 := [1; 2; 3] ]}.

(** A message to a group: users 1, 2 and 3. *)
Definition pmMessage (i sender : Z) (fl : option (list string)) : Message :=
  {| id := i; type := private; sender_id := sender; recipients := [1; 2; 3];
     flags := fl |}.

(** ** The message selectors

    [truncateForLogging], [getPrivateMessages], [getFirstUnreadIdInNarrow],
    [hasMessageEverHadTopic] and [hasMessageEverBeenInStream].  The selectors
    built with [createSelector] are given by the function that computes their
    value from the values of their input selectors. *)
Module messageSelectors.

(** [arr.slice(start, end)]: a negative index counts from the end of the
    array, an index outside the array is clamped, and an [end] left out is the
    length. *)
Definition relativeIndex (len : nat) (k : Z) : nat :=
  if decide (k < 0)%Z then Z.to_nat (Z.max (Z.of_nat len + k) 0)
  else Z.to_nat (Z.min k (Z.of_nat len)).

Definition slice {T} (arr : list T) (start : Z) (end_ : option Z) : list T :=
  let from := relativeIndex (length arr) start in
  let to := match end_ with
            | Some e => relativeIndex (length arr) e
            | None => length arr
            end in
  take (to - from) (drop from arr).

(** What [truncateForLogging] returns: the array itself, or an object with
    its length and its two ends. *)
Inductive Truncated (T : Type) :=
| whole (arr : list T)
| ends (length : nat) (start end_ : list T).
Arguments whole {T} _.
Arguments ends {T} _ _ _.

(** [truncateForLogging(arr, len)]; callers that leave [len] out get 10. *)
Definition truncateForLogging {T} (arr : list T) (len : Z) : Truncated T :=
  if decide (Z.of_nat (length arr) ≤ 2 * len)%Z then whole arr
  else ends (length arr) (slice arr 0 (Some len)) (slice arr (- len) None).

(** The [forEach] of a loop whose body may throw. *)
Fixpoint forEach {A S} (body : S → A → Result S) (s : S) (l : list A)
    : Result S :=
  match l with
  | [] => Ok s
  | x :: l' => match body s x with
               | Ok s' => forEach body s' l'
               | Throw e => Throw e
               end
  end.

(** What [getPrivateMessages] hands to [logging.error]. *)
Record ErrorReport := mkErrorReport {
  all_ids : Truncated Z;
  unknown_ids : Truncated Z
}.

(** [getPrivateMessages], from the values of [getAllNarrows] and
    [getMessages]; the result comes with what was logged, if anything.  The
    key [ALL_PRIVATE_NARROW_STR] of [utils/narrow] is not among the sources
    and is an argument. *)
Definition getPrivateMessages (ALL_PRIVATE_NARROW_STR : string)
    (narrows : gmap string (list Z)) (messages : gmap Z Message)
    : Result (list Message * option ErrorReport) :=
  let pmIds := default [] (narrows !! ALL_PRIVATE_NARROW_STR) in
  match
    forEach (λ '(privateMessages, unknownIds) id,
               match messages !! id with
               | Some msg =>
                   if bool_decide (type msg = private)
                   then Ok ((privateMessages ++ [msg])%list, unknownIds)
                   else Throw "msg is a PM"
               | None => Ok (privateMessages, (unknownIds ++ [id])%list)
               end)
            ([], []) pmIds
  with
  | Ok (privateMessages, unknownIds) =>
      Ok (privateMessages,
          if decide (0 < length unknownIds)%nat
          then Some {| all_ids := truncateForLogging pmIds 10;
                       unknown_ids := truncateForLogging unknownIds 10 |}
          else None)
  | Throw e => Throw e
  end.

(** [getFirstUnreadIdInNarrow], from the shown messages of the narrow and the
    value of [getFlags]: [messages.find(msg => !flags.read[msg.id])], then
    [firstUnread?.id ?? null].  Reading [flags.read[...]] throws a
    [TypeError] when [flags] has no property [read]. *)
Definition getFirstUnreadIdInNarrow (messages : list Message)
    (flags : FlagsState) : Result (option Z) :=
  match JsObject.get flags "read" with
  | Some read =>
      Ok (id <$> List.find (λ msg, negb (truthy (read !! id msg))) messages)
  | None =>
      match messages with
      | [] => Ok None
      | _ :: _ => Throw "TypeError"
      end
  end.

(** One entry of a message's edit history. *)
Record MessageEdit := mkMessageEdit {
  prev_topic : option string;
  prev_stream : option Z
}.

(** [message.edit_history]: [null], [undefined], or the entries. *)
Inductive EditHistory :=
| history_null
| history_undefined
| history (edits : list MessageEdit).

(** The properties of a message these functions read; a message that is not
    in a stream has no [stream_id]. *)
Record EditedMessage := mkEditedMessage {
  subject : string;
  stream_id : option Z;
  edit_history : EditHistory
}.

(** The answers are [true], [false] and [null] ([None]). *)
Definition hasMessageEverHadTopic (message : EditedMessage) (topic : string)
    : option bool :=
  if decide (subject message = topic) then Some true
  else match edit_history message with
       | history_null => None
       | history_undefined => Some false
       | history edits =>
           Some (match list_find (λ messageEdit,
                                    Some topic = prev_topic messageEdit) edits with
                 | Some _ => true
                 | None => false
                 end)
       end.

Definition hasMessageEverBeenInStream (message : EditedMessage) (streamId : Z)
    : option bool :=
  if decide (stream_id message = Some streamId) then Some true
  else match edit_history message with
       | history_null => None
       | history_undefined => Some false
       | history edits =>
           Some (match list_find (λ messageEdit,
                                    Some streamId = prev_stream messageEdit)
                                 edits with
                 | Some _ => true
                 | None => false
                 end)
       end.

End messageSelectors.

(** ** The permission selectors *)
Module permissionSelectors.

(** The numbers of the roles.  The enumeration [Role] of
    [api/permissionsTypes] is not among the sources, so its five values are
    arguments; what the code says of them is that "roles with more privilege
    have lower numbers". *)
Record RoleValues := mkRoleValues {
  Owner : Z;
  Admin : Z;
  Moderator : Z;
  Member : Z;
  Guest : Z
}.

Definition rolesOrdered (R : RoleValues) : Prop :=
  Owner R < Admin R ∧ Admin R < Moderator R ∧ Moderator R < Member R
  ∧ Member R < Guest R.

(** The members of the enumeration [CreateWebPublicStreamPolicy], as the
    [switch] statements list them. *)
Inductive CreateWebPublicStreamPolicy :=
| Nobody
| OwnerOnly
| AdminOrAbove
| ModeratorOrAbove.

(** What the selectors read of [getRealm(state)]. *)
Record Realm := mkRealm {
  isOwner : bool;
  isAdmin : bool;
  isModerator : bool;
  isGuest : bool;
  createPublicStreamPolicy : Z;
  createPrivateStreamPolicy : Z;
  webPublicStreamsEnabled : bool;
  enableSpectatorAccess : bool;
  createWebPublicStreamPolicy : CreateWebPublicStreamPolicy;
  name : string
}.

(** What the selectors read of [getOwnUser(state)]; [role] may be
    [undefined]. *)
Record User := mkUser {
  user_id : Z;
  role : option Z
}.

Record PerAccountState := mkPerAccountState {
  getRealm : Realm;
  getOwnUser : User
}.

Section selectors.

Variable R : RoleValues.

(** [getHasUserPassedWaitingPeriod] compares the time since the user joined,
    read off the clock by [Date.now()], with the realm's threshold; its answer
    is an argument here. *)
Variable getHasUserPassedWaitingPeriod : PerAccountState → Z → bool.

Definition getOwnUserRole (state : PerAccountState) : Z :=
  match role (getOwnUser state) with
  | Some fromUserObject => fromUserObject
  | None =>
      if isOwner (getRealm state) then Owner R
      else if isAdmin (getRealm state) then Admin R
      else if isModerator (getRealm state) then Moderator R
      else if isGuest (getRealm state) then Guest R
      else Member R
  end.

Definition roleIsAtLeast (thisRole thresholdRole : Z) : bool :=
  bool_decide (thisRole ≤ thresholdRole)%Z.

Definition getCanCreatePublicStreams (state : PerAccountState) : bool :=
  let ownUser := getOwnUser state in
  let role := getOwnUserRole state in
  match createPublicStreamPolicy (getRealm state) with
  | 4 => roleIsAtLeast role (Moderator R)
  | 3 => if decide (role = Member R)
         then getHasUserPassedWaitingPeriod state (user_id ownUser)
         else roleIsAtLeast role (Member R)
  | 2 => roleIsAtLeast role (Admin R)
  | 1 => roleIsAtLeast role (Member R)
  | _ => false
  end.

Definition getCanCreatePrivateStreams (state : PerAccountState) : bool :=
  let ownUser := getOwnUser state in
  let role := getOwnUserRole state in
  match createPrivateStreamPolicy (getRealm state) with
  | 4 => roleIsAtLeast role (Moderator R)
  | 3 => if decide (role = Member R)
         then getHasUserPassedWaitingPeriod state (user_id ownUser)
         else roleIsAtLeast role (Member R)
  | 2 => roleIsAtLeast role (Admin R)
  | 1 => roleIsAtLeast role (Member R)
  | _ => false
  end.

Definition getCanCreateWebPublicStreams (state : PerAccountState) : bool :=
  let role := getOwnUserRole state in
  if negb (webPublicStreamsEnabled (getRealm state))
     || negb (enableSpectatorAccess (getRealm state))
  then false
  else
    match createWebPublicStreamPolicy (getRealm state) with
    | Nobody => false
    | OwnerOnly => roleIsAtLeast role (Owner R)
    | AdminOrAbove => roleIsAtLeast role (Admin R)
    | ModeratorOrAbove => roleIsAtLeast role (Moderator R)
    end.

End selectors.

End permissionSelectors.

(** ** The card for creating and editing a stream *)
Module EditStreamCard.

Import permissionSelectors.

(** A text to translate, with the values to put into it. *)
Record LocalizableText := mkLocalizableText {
  text : string;
  values_realmName : option string
}.

Definition explainCreateWebPublicStreamPolicy
    (policy : CreateWebPublicStreamPolicy) (realmName : string)
    : LocalizableText :=
  {| text :=
       match policy with
       | Nobody =>
           "{realmName} does not allow anybody to make web-public streams."
       | OwnerOnly =>
           "{realmName} only allows organization owners to make web-public streams."
       | AdminOrAbove =>
           "{realmName} only allows organization administrators or owners to make web-public streams."
       | ModeratorOrAbove =>
           "{realmName} only allows organization moderators, administrators, or owners to make web-public streams."
       end;
     values_realmName := Some realmName |}.

Definition explainCreatePublicStreamPolicy (policy : Z) (realmName : string)
    : LocalizableText :=
  {| text :=
       match policy with
       | 2 => "{realmName} only allows organization administrators or owners to make public streams."
       | 4 => "{realmName} only allows organization moderators, administrators, or owners to make public streams."
       | 3 => "{realmName} only allows full organization members, moderators, administrators, or owners to make public streams."
       | 1 => "{realmName} only allows organization members, moderators, administrators, or owners to make public streams."
       | _ => ""
       end;
     values_realmName := Some realmName |}.

Definition explainCreatePrivateStreamPolicy (policy : Z) (realmName : string)
    : LocalizableText :=
  {| text :=
       match policy with
       | 2 => "{realmName} only allows organization administrators or owners to make private streams."
       | 4 => "{realmName} only allows organization moderators, administrators, or owners to make private streams."
       | 3 => "{realmName} only allows full organization members, moderators, administrators, or owners to make private streams."
       | 1 => "{realmName} only allows organization members, moderators, administrators, or owners to make private streams."
       | _ => ""
       end;
     values_realmName := Some realmName |}.

(** [new URL(path, base)], unresolved. *)
Record LearnMoreButton := mkLearnMoreButton {
  url_path : string;
  url_base : string;
  button_text : string
}.

(** Why an option cannot be chosen. *)
Record Disabled := mkDisabled {
  title : string;
  message : LocalizableText;
  learnMoreButton : option LearnMoreButton
}.

(** One of the choices of privacy; [disabled] is [false] ([None]) or the
    reason. *)
Record PrivacyOption := mkPrivacyOption {
  key : string;
  option_title : string;
  subtitle : string;
  disabled : option Disabled
}.

Section options.

Variable R : RoleValues.
Variable getHasUserPassedWaitingPeriod : PerAccountState → Z → bool.

(** The callback [shouldDisableIfNotInitialValue] of
    [useStreamPrivacyOptions]; [false] is [None]. *)
Definition shouldDisableIfNotInitialValue (isNewStream : bool)
    (ownUserRole : Z) (realmName realmUrl : string) {T : Type}
    (canCreate : bool) (explainPolicy : T → string → LocalizableText)
    (policy : T) : option Disabled :=
  if negb isNewStream && negb (roleIsAtLeast ownUserRole (Admin R)) then
    Some {| title := "Insufficient permission";
            message :=
              {| text := "Only organization administrators and owners can edit streams.";
                 values_realmName := None |};
            learnMoreButton := None |}
  else if negb canCreate then
    Some {| title := "Insufficient permission";
            message := explainPolicy policy realmName;
            learnMoreButton :=
              if roleIsAtLeast ownUserRole (Admin R)
              then Some {| url_path := "/help/configure-who-can-create-streams";
                           url_base := realmUrl;
                           button_text := "Configure permissions" |}
              else None |}
  else None.

(** [useStreamPrivacyOptions]: the value the hook computes (and memoizes)
    from the state; [realmUrl] is the value of [getRealmUrl]. *)
Definition useStreamPrivacyOptions (state : PerAccountState)
    (realmUrl : string) (initialValue : string) (isNewStream : bool)
    : list PrivacyOption :=
  let realm := getRealm state in
  let realmName := name realm in
  let canCreatePublicStreams :=
    getCanCreatePublicStreams R getHasUserPassedWaitingPeriod state in
  let canCreatePrivateStreams :=
    getCanCreatePrivateStreams R getHasUserPassedWaitingPeriod state in
  let canCreateWebPublicStreams := getCanCreateWebPublicStreams R state in
  let ownUserRole := getOwnUserRole R state in
  let shouldDisable {T} :=
    @shouldDisableIfNotInitialValue isNewStream ownUserRole realmName realmUrl T in
  (λ x : string * string * string * option Disabled,
     let '(key, title, subtitle, disabledIfNotInitialValue) := x in
     {| key := key; option_title := title; subtitle := subtitle;
        disabled := if decide (key ≠ initialValue)
                    then disabledIfNotInitialValue else None |})
  <$> omap (λ x, x)
        [ if negb (webPublicStreamsEnabled realm && enableSpectatorAccess realm)
          then None
          else Some
                 ("web-public", "Web-public",
                  "Organization members can join (guests must be invited by a subscriber); anyone on the Internet can view complete message history without creating an account",
                  shouldDisable canCreateWebPublicStreams
                    explainCreateWebPublicStreamPolicy
                    (createWebPublicStreamPolicy realm));
          Some ("public", "Public",
                "Organization members can join (guests must be invited by a subscriber); organization members can view complete message history without joining",
                shouldDisable canCreatePublicStreams
                  explainCreatePublicStreamPolicy
                  (createPublicStreamPolicy realm));
          Some ("invite-only-public-history", "Private, shared history",
                "Must be invited by a subscriber; new subscribers can view complete message history; hidden from non-administrator users",
                shouldDisable canCreatePrivateStreams
                  explainCreatePrivateStreamPolicy
                  (createPrivateStreamPolicy realm));
          Some ("invite-only", "Private, protected history",
                "Must be invited by a subscriber; new subscribers can only see messages sent after they join; hidden from non-administrator users",
                shouldDisable canCreatePrivateStreams
                  explainCreatePrivateStreamPolicy
                  (createPrivateStreamPolicy realm)) ].

End options.

(** The values of the form. *)
Record Values := mkValues {
  value_name : string;
  value_description : string;
  value_privacy : string
}.

(** [areInputsTouched] of the component. *)
Definition areInputsTouched (initialValues : Values)
    (name description privacy : string) : bool :=
  negb (bool_decide (name = value_name initialValues))
  || negb (bool_decide (description = value_description initialValues))
  || negb (bool_decide (privacy = value_privacy initialValues)).

(** What an edit hands to [onComplete]: a property is [undefined] when its
    value has not changed. *)
Record ChangedValues := mkChangedValues {
  changed_name : option string;
  changed_description : option string;
  changed_privacy : option string
}.

Definition changedValues (initialValues : Values)
    (name description privacy : string) : ChangedValues :=
  {| changed_name :=
       if decide (value_name initialValues ≠ name) then Some name else None;
     changed_description :=
       if decide (value_description initialValues ≠ description)
       then Some description else None;
     changed_privacy :=
       if decide (value_privacy initialValues ≠ privacy)
       then Some privacy else None |}.

End EditStreamCard.

(** ** Rendering a message: the names under a reaction *)
Module message.

(** What [getDisplayFullNames] reads of the background data: the full names of
    the users known, the muted users, and the id of the own user. *)
Record BackgroundData := mkBackgroundData {
  allUsersById : gmap Z string;
  mutedUsers : gset Z;
  ownUser_user_id : Z
}.

(** [getDisplayFullNames]: the names, and the ids [logging.warn] was called
    with, in order.  [_] is the translation function. *)
Definition getDisplayFullNames (userIds : list Z)
    (backgroundData : BackgroundData) (_' : string → string)
    : list string * list Z :=
  foldl (λ '(names, warned) id,
           match allUsersById backgroundData !! id with
           | None => ((names ++ ["?"])%list, (warned ++ [id])%list)
           | Some full_name =>
               if decide (id = ownUser_user_id backgroundData)
               then ((names ++ [_' "You"])%list, warned)
               else if decide (id ∈ mutedUsers backgroundData)
               then ((names ++ [_' "Muted user"])%list, warned)
               else ((names ++ [full_name])%list, warned)
           end)
        ([], []) userIds.

End message.

(** ** Sample data for the permission selectors *)

(** Roles numbered in the order of their privilege. *)
Definition sampleRoles : permissionSelectors.RoleValues :=
  {| permissionSelectors.Owner := 100; permissionSelectors.Admin := 200;
     permissionSelectors.Moderator := 300; permissionSelectors.Member := 400;
     permissionSelectors.Guest := 600 |}.

(** A realm in which members may create public streams (policy 1),
    administrators private ones (policy 2), and owners web-public ones. *)
Definition sampleRealm : permissionSelectors.Realm :=
  {| permissionSelectors.isOwner := false;
     permissionSelectors.isAdmin := false;
     permissionSelectors.isModerator := false;
     permissionSelectors.isGuest := false;
     permissionSelectors.createPublicStreamPolicy := 1;
     permissionSelectors.createPrivateStreamPolicy := 2;
     permissionSelectors.webPublicStreamsEnabled := true;
     permissionSelectors.enableSpectatorAccess := true;
     permissionSelectors.createWebPublicStreamPolicy :=
       permissionSelectors.OwnerOnly;
     permissionSelectors.name := "Sample" |}.

(** The realm seen by a user with the given role. *)
Definition sampleState (role : Z) : permissionSelectors.PerAccountState :=
  {| permissionSelectors.getRealm := sampleRealm;
     permissionSelectors.getOwnUser :=
       {| permissionSelectors.user_id := 1;
          permissionSelectors.role := Some role |} |}.

(** The same state under the policy of moderators (4) for private streams. *)
Definition sampleStateModerators (role : Z)
    : permissionSelectors.PerAccountState :=
  {| permissionSelectors.getRealm :=
       {| permissionSelectors.isOwner := false;
          permissionSelectors.isAdmin := false;
          permissionSelectors.isModerator := false;
          permissionSelectors.isGuest := false;
          permissionSelectors.createPublicStreamPolicy := 1;
          permissionSelectors.createPrivateStreamPolicy := 4;
          permissionSelectors.webPublicStreamsEnabled := true;
          permissionSelectors.enableSpectatorAccess := true;
          permissionSelectors.createWebPublicStreamPolicy :=
            permissionSelectors.OwnerOnly;
          permissionSelectors.name := "Sample" |};
     permissionSelectors.getOwnUser :=
       {| permissionSelectors.user_id := 1;
          permissionSelectors.role := Some role |} |}.

(** A clock by which every waiting period has passed. *)
Definition waitingPeriodPassed (state : permissionSelectors.PerAccountState)
    (userId : Z) : bool := true.

(** Whether the user may create streams of the kind an option of the stream
    card stands for. *)
Definition canCreateFor (R : permissionSelectors.RoleValues)
    (getHasUserPassedWaitingPeriod :
       permissionSelectors.PerAccountState → Z → bool)
    (state : permissionSelectors.PerAccountState) (key : string) : bool :=
  if decide (key = "web-public")
  then permissionSelectors.getCanCreateWebPublicStreams R state
  else if decide (key = "public")
  then permissionSelectors.getCanCreatePublicStreams R
         getHasUserPassedWaitingPeriod state
  else permissionSelectors.getCanCreatePrivateStreams R
         getHasUserPassedWaitingPeriod state.

(** ** Vocabulary of the unread huddles *)

(** The keys of the entries, in order. *)
Definition huddleKeys (state : UnreadHuddlesState) : list string :=
  user_ids_string <$> state.

(** The unread message ids of the entry of a key (the first entry, should
    there be several); none when there is no entry. *)
Fixpoint unreadOf (state : UnreadHuddlesState) (key : string) : list Z :=
  match state with
  | [] => []
  | h :: rest =>
      if decide (user_ids_string h = key) then unread_message_ids h
      else unreadOf rest key
  end.

(** The recipient detail of an event gives message [id] the participants
    whose key is [key]. *)
Definition resolvesTo (ownUserId : Z) (details : option (gmap Z (list Z)))
    (key : string) (id : Z) : Prop :=
  ∃ user_ids,
    default ∅ details !! id = Some user_ids
    ∧ unreadHuddlesReducer.pmUnreadsKey ownUserId user_ids = key.

(** The entries after [addItemToHuddleArray], entry by entry. *)
Fixpoint withUnread (place : list Z → Z → list Z) (state : UnreadHuddlesState)
    (key : string) (id : Z) : UnreadHuddlesState :=
  match state with
  | [] => [mkUnreadHuddle key [id]]
  | h :: rest =>
      if decide (user_ids_string h = key) then
        (if decide (id ∈ unread_message_ids h) then h
         else mkUnreadHuddle key (place (unread_message_ids h) id)) :: rest
      else h :: withUnread place rest key id
  end.

(** The entries after the loop that marks messages unread. *)
Definition markedUnread (ownUserId : Z) (details : option (gmap Z (list Z)))
    (state : UnreadHuddlesState) (ids : list Z) : UnreadHuddlesState :=
  foldl (λ state id,
           match default ∅ details !! id with
           | Some user_ids =>
               withUnread unreadHuddlesReducer.inOrder state
                 (unreadHuddlesReducer.pmUnreadsKey ownUserId user_ids) id
           | None => state
           end)
        state ids.

(** ** Facts about objects *)

Section JsObject_facts.
Context {V : Type}.
Implicit Types (o a b : JsObject.t V) (k : string) (v : V).

Lemma get_set_eq o k v : JsObject.get (JsObject.set o k v) k = Some v.
Proof.
  induction o as [|[k' v'] o IH]; simpl.
  - by rewrite decide_True.
  - destruct (decide (k = k')) as [->|Hne]; simpl.
    + by rewrite decide_True.
    + by rewrite decide_False.
Qed.

Lemma get_set_ne o k k' v :
  k ≠ k' → JsObject.get (JsObject.set o k v) k' = JsObject.get o k'.
Proof.
  intros Hne. induction o as [|[k0 v0] o IH]; simpl.
  - by rewrite decide_False.
  - destruct (decide (k = k0)) as [->|Hk]; simpl.
    + by rewrite !(decide_False (P := k' = k0)).
    + destruct (decide (k' = k0)); [done | apply IH].
Qed.

Lemma get_set o k k' v :
  JsObject.get (JsObject.set o k v) k' =
    if decide (k = k') then Some v else JsObject.get o k'.
Proof.
  destruct (decide (k = k')) as [->|Hne];
    [apply get_set_eq | by apply get_set_ne].
Qed.

(** Writing back the value a property already has changes nothing. *)
Lemma set_get_id o k v : JsObject.get o k = Some v → JsObject.set o k v = o.
Proof.
  induction o as [|[k' v'] o IH]; simpl; [done|].
  destruct (decide (k = k')) as [->|Hne].
  - by intros [= ->].
  - intros Hget. by rewrite IH.
Qed.

(** Two writes to the same property: the second one counts. *)
Lemma set_set o k v v' :
  JsObject.set (JsObject.set o k v) k v' = JsObject.set o k v'.
Proof.
  induction o as [|[k' v0] o IH]; simpl.
  - by rewrite decide_True.
  - destruct (decide (k = k')) as [->|Hne]; simpl.
    + by rewrite decide_True.
    + by rewrite decide_False, IH.
Qed.

Lemma get_Some_keys o k v : JsObject.get o k = Some v → k ∈ JsObject.keys o.
Proof.
  unfold JsObject.keys.
  induction o as [|[k' v'] o IH]; simpl; [done|].
  destruct (decide (k = k')) as [->|Hne].
  - intros _. apply list_elem_of_here.
  - intros Hget. apply list_elem_of_further. by apply IH.
Qed.

Lemma keys_get_Some o k : k ∈ JsObject.keys o → is_Some (JsObject.get o k).
Proof.
  unfold JsObject.keys.
  induction o as [|[k' v'] o IH]; simpl.
  - by intros ?%elem_of_nil.
  - destruct (decide (k = k')) as [->|Hne]; [by eauto|].
    intros [?|?]%elem_of_cons; [done | by apply IH].
Qed.

Lemma get_None_keys o k : JsObject.get o k = None ↔ k ∉ JsObject.keys o.
Proof.
  split.
  - intros Hget Hin. apply keys_get_Some in Hin as [v Hv]. congruence.
  - intros Hnin. destruct (JsObject.get o k) as [v|] eqn:Hget; [|done].
    by apply get_Some_keys in Hget.
Qed.

(** [{ ...o, [k]: v }] *)
Lemma spread_singleton o k v :
  JsObject.spread o [(k, v)] = JsObject.set o k v.
Proof. reflexivity. Qed.

Lemma spread_nil o : JsObject.spread o [] = o.
Proof. reflexivity. Qed.

End JsObject_facts.

(** ** The flags store: reading the state *)

Lemma filter_sublist {A} (f : A → bool) (l : list A) : sublist (List.filter f l) l.
Proof.
  induction l as [|x l IH]; simpl; [constructor|].
  destruct (f x); by constructor.
Qed.

Lemma recorded_true state flag i :
  recorded state flag i = true ↔
  ∃ perFlag, JsObject.get state flag = Some perFlag ∧ perFlag !! i = Some true.
Proof.
  unfold recorded, truthy. split.
  - destruct (JsObject.get state flag) as [pf|]; [|done].
    destruct (pf !! i) as [[]|] eqn:Hi; naive_solver.
  - by intros (pf & -> & ->).
Qed.

Lemma recorded_keys state flag i :
  recorded state flag i = true → flag ∈ JsObject.keys state.
Proof. intros (pf & Hget & _)%recorded_true. by eapply get_Some_keys. Qed.

(** C10: [flagsStateToStringList] returns exactly the flag names under which
    the id is recorded: a name is in the result just when the state records the
    id under it, the names come in the order of the state's properties, and the
    result is empty exactly for an id recorded under no flag. *)
Theorem flagsStateToStringList_exact (flags : FlagsState) (i : Z) :
  (∀ key, key ∈ flagsStateToStringList flags i ↔ recorded flags key i = true)
  ∧ sublist (flagsStateToStringList flags i) (JsObject.keys flags)
  ∧ (flagsStateToStringList flags i = [] ↔ ∀ key, recorded flags key i = false).
Proof.
  assert (Hmem : ∀ key,
    key ∈ flagsStateToStringList flags i ↔ recorded flags key i = true).
  { intros key. unfold flagsStateToStringList.
    rewrite list_elem_of_In, filter_In, <- list_elem_of_In.
    fold (recorded flags key i). split; [by intros [_ ?]|].
    intros Hrec. split; [by eapply recorded_keys | done]. }
  split; [exact Hmem|]. split; [apply filter_sublist|]. split.
  - intros Hnil key. destruct (recorded flags key i) eqn:Hrec; [|done].
    apply Hmem in Hrec. rewrite Hnil in Hrec. by apply elem_of_nil in Hrec.
  - intros Hnone.
    destruct (flagsStateToStringList flags i) as [|key l] eqn:Hl; [done|].
    assert (Hin : key ∈ key :: l) by apply list_elem_of_here.
    apply Hmem in Hin. by rewrite Hnone in Hin.
Qed.

(** The names come out once each when the state has no property twice. *)
Lemma flagsStateToStringList_NoDup (flags : FlagsState) (i : Z) :
  JsObject.wf flags → NoDup (flagsStateToStringList flags i).
Proof.
  intros Hwf. exact (sublist_NoDup _ _ Hwf (filter_sublist _ _)).
Qed.

(** ** The flags store: the assertion on new messages *)

Lemma reducer_new_message state message next :
  flagsReducer.reducer state (EVENT_NEW_MESSAGE message) next =
    match flags message with
    | Some fl => flagsReducer.addFlagsForMessages state [id message] fl next
    | None => Throw "message in EVENT_NEW_MESSAGE must have flags"
    end.
Proof.
  unfold flagsReducer.reducer, mbind, M_bind, bind, invariant.
  by destruct (flags message).
Qed.

(** [addFlagsForMessages] never throws. *)
Lemma addFlagsForMessages_returns state ids fl next :
  ∃ state' next',
    flagsReducer.addFlagsForMessages state ids fl next = Ok (state', next').
Proof.
  unfold flagsReducer.addFlagsForMessages.
  destruct (_ || _); [by exists state, next|].
  unfold alloc. eauto.
Qed.

(** C9: a new message whose flag list is present but empty passes the
    assertion, and the reducer returns the state it was given, the same
    object, allocating nothing. *)
Theorem new_message_empty_flags_unchanged
    (state : Ref FlagsState) (message : Message) (next : loc) :
  flags message = Some [] →
  flagsReducer.reducer state (EVENT_NEW_MESSAGE message) next = Ok (state, next).
Proof. intros Hfl. rewrite reducer_new_message, Hfl. reflexivity. Qed.

Lemma new_message_empty_flags_unchanged_witness :
  flagsReducer.reducer starredFive (EVENT_NEW_MESSAGE (streamMessage 9 (Some [])))
    4%positive = Ok (starredFive, 4%positive).
Proof. apply new_message_empty_flags_unchanged. reflexivity. Defined.

(** C6, as the code has it: the assertion on a new message fires exactly when
    the message has no flag list at all.  An absent flag list is a fatal
    assertion failure; a flag list that is present, empty or not, never fires
    it. *)
Theorem new_message_assertion
    (state : Ref FlagsState) (message : Message) (next : loc) :
  (flags message = None ↔
     flagsReducer.reducer state (EVENT_NEW_MESSAGE message) next =
       Throw "message in EVENT_NEW_MESSAGE must have flags")
  ∧ (is_Some (flags message) ↔
       ∃ state' next',
         flagsReducer.reducer state (EVENT_NEW_MESSAGE message) next =
           Ok (state', next')).
Proof.
  rewrite reducer_new_message.
  destruct (flags message) as [fl|] eqn:Hfl.
  - destruct (addFlagsForMessages_returns state [id message] fl next)
      as (state' & next' & Hok).
    rewrite Hok. split; split; try done; eauto.
  - split; split; try done.
    intros (state' & next' & Hok). discriminate Hok.
Qed.

Lemma new_message_assertion_witness :
  flagsReducer.reducer starredFive (EVENT_NEW_MESSAGE (streamMessage 9 None))
    4%positive = Throw "message in EVENT_NEW_MESSAGE must have flags"
  ∧ ∃ state' next',
      flagsReducer.reducer starredFive
        (EVENT_NEW_MESSAGE (streamMessage 9 (Some ["read"]))) 4%positive
        = Ok (state', next').
Proof.
  split.
  - apply (new_message_assertion starredFive (streamMessage 9 None) 4%positive).
    reflexivity.
  - apply (new_message_assertion starredFive (streamMessage 9 (Some ["read"]))
             4%positive).
    by eexists.
Defined.

(** The assertion does not fire on an empty flag list: a message whose flag
    list is [[]] goes through, and the state comes back as it was. *)
Lemma new_message_empty_flags_not_fatal :
  ¬ nonempty_flags_required_as_claimed flagsReducer.initialState
      (streamMessage 9 (Some [])) firstFree.
Proof.
  intros Hclaim. destruct Hclaim as [e He].
  - intros (f & fl & Hfl). discriminate Hfl.
  - discriminate He.
Qed.

(** ** The flags store: flags the client does not know *)

Lemma lookup_foldl_insert (perFlag : gmap Z bool) (ids : list Z) (i : Z) :
  foldl (λ perFlag message, <[message := true]> perFlag) perFlag ids !! i =
    if decide (i ∈ ids) then Some true else perFlag !! i.
Proof.
  revert perFlag. induction ids as [|j ids IH]; intros perFlag; cbn [foldl].
  - by rewrite decide_False by apply not_elem_of_nil.
  - rewrite IH. destruct (decide (i = j)) as [->|Hne].
    + rewrite lookup_insert_eq, (decide_True (P := j ∈ j :: ids))
        by apply list_elem_of_here.
      by destruct (decide (j ∈ ids)).
    + rewrite lookup_insert_ne by done.
      destruct (decide (i ∈ ids)) as [Hin|Hnin].
      * by rewrite decide_True by by apply list_elem_of_further.
      * rewrite decide_False; [done|]. by intros [?|?]%elem_of_cons.
Qed.

Lemma lookup_foldl_delete (perFlag : gmap Z bool) (ids : list Z) (i : Z) :
  foldl (λ o message, delete message o) perFlag ids !! i =
    if decide (i ∈ ids) then None else perFlag !! i.
Proof.
  revert perFlag. induction ids as [|j ids IH]; intros perFlag; cbn [foldl].
  - by rewrite decide_False by apply not_elem_of_nil.
  - rewrite IH. destruct (decide (i = j)) as [->|Hne].
    + rewrite lookup_delete_eq, (decide_True (P := j ∈ j :: ids))
        by apply list_elem_of_here.
      by destruct (decide (j ∈ ids)).
    + rewrite lookup_delete_ne by done.
      destruct (decide (i ∈ ids)) as [Hin|Hnin].
      * by rewrite decide_True by by apply list_elem_of_further.
      * rewrite decide_False; [done|]. by intros [?|?]%elem_of_cons.
Qed.

(** What [addFlagsForMessages] builds for one flag and at least one message. *)
Lemma addFlagsForMessages_one_flag state i ids flag next :
  flagsReducer.addFlagsForMessages state (i :: ids) [flag] next =
    Ok (mkRef next
          (JsObject.set (obj state) flag
             (foldl (λ perFlag message, <[message := true]> perFlag)
                    (default ∅ (JsObject.get (obj state) flag)) (i :: ids))),
        Pos.succ next).
Proof. reflexivity. Qed.

Lemma reducer_scoped_add state flag ids details next :
  flagsReducer.reducer state (FlagChangeScoped "add" flag ids details) next =
    flagsReducer.addFlagsForMessages state ids [flag] next.
Proof. reflexivity. Qed.

Lemma reducer_scoped_remove state flag ids details next :
  flagsReducer.reducer state (FlagChangeScoped "remove" flag ids details) next =
    flagsReducer.removeFlagForMessages state ids flag next.
Proof. reflexivity. Qed.

(** A flag change for listed messages records the flag under whatever name it
    comes with, known or not. *)
Lemma scoped_add_records_any_flag state flag i ids next :
  ∃ state',
    flagsReducer.reducer state (FlagChangeScoped "add" flag (i :: ids) None) next
      = Ok (state', Pos.succ next)
    ∧ recorded (obj state') flag i = true.
Proof.
  eexists. split; [apply addFlagsForMessages_one_flag|].
  apply recorded_true. eexists. split; [apply get_set_eq|].
  rewrite lookup_foldl_insert, decide_True; [done | apply list_elem_of_here].
Qed.

(** C3, at an input on which the code departs from it: the flag "bogus" is
    none of the seven, and each kind of flag event leaves a property of that
    name in the state: a new message carrying it, a change for listed
    messages (adding or removing), and a change for all messages. *)
Theorem unknown_flag_gets_an_entry :
  ("bogus" ∉ knownFlags)
  ∧ JsObject.get (obj flagsReducer.initialState) "bogus" = None
  ∧ (∃ state',
       flagsReducer.reducer flagsReducer.initialState
         (EVENT_NEW_MESSAGE (streamMessage 1 (Some ["bogus"]))) firstFree
         = Ok (state', 4%positive)
       ∧ JsObject.get (obj state') "bogus" = Some {[ 1 := true ]})
  ∧ (∃ state',
       flagsReducer.reducer flagsReducer.initialState
         (FlagChangeScoped "add" "bogus" [1] None) firstFree
         = Ok (state', 4%positive)
       ∧ JsObject.get (obj state') "bogus" = Some {[ 1 := true ]}
       ∧ flagsStateToStringList (obj state') 1 = ["bogus"])
  ∧ (∃ state',
       flagsReducer.reducer flagsReducer.initialState
         (FlagChangeScoped "remove" "bogus" [1] None) firstFree
         = Ok (state', 4%positive)
       ∧ JsObject.get (obj state') "bogus" = Some ∅)
  ∧ (∃ state',
       flagsReducer.reducer flagsReducer.initialState
         (FlagChangeAll "add" "bogus" [1]) firstFree
         = Ok (state', 4%positive)
       ∧ JsObject.get (obj state') "bogus" = Some {[ 1 := true ]}).
Proof.
  split; [apply (bool_decide_unpack _); by vm_compute|].
  split; [reflexivity|].
  repeat split; eexists; (split; [vm_compute; reflexivity|]); repeat split;
    vm_compute; reflexivity.
Qed.

(** ** The flags store: a flag change for all messages *)

(** C1, at an input on which the code departs from it: message 5 is starred;
    marking all messages (1 and 2) as read makes the "read" set exactly
    [{1, 2}], and the "starred" set, which the event does not name, comes out
    empty: the new state is built from [initialState], not from the state. *)
Theorem mark_all_read_drops_other_flags :
  JsObject.get (obj starredFive) "starred" = Some {[ 5 := true ]}
  ∧ ∃ state',
      flagsReducer.reducer starredFive (FlagChangeAll "add" "read" [1; 2])
        4%positive = Ok (state', 5%positive)
      ∧ JsObject.get (obj state') "read" = Some {[ 1 := true; 2 := true ]}
      ∧ JsObject.get (obj state') "starred" = Some ∅
      ∧ recorded (obj starredFive) "starred" 5 = true
      ∧ recorded (obj state') "starred" 5 = false.
Proof.
  split; [reflexivity|]. eexists. split; [vm_compute; reflexivity|].
  repeat split; vm_compute; reflexivity.
Qed.

(** The sibling path, removing a flag from all messages, keeps the other
    flags: it spreads the state it was given. *)
Lemma remove_all_keeps_other_flags state flag other next :
  flag ≠ other →
  ∃ state',
    flagsReducer.reducer state (FlagChangeAll "remove" flag []) next
      = Ok (state', Pos.succ next)
    ∧ JsObject.get (obj state') flag = Some ∅
    ∧ JsObject.get (obj state') other = JsObject.get (obj state) other.
Proof.
  intros Hne. eexists. split; [reflexivity|]. simpl.
  split; [apply get_set_eq | by apply get_set_ne].
Qed.

(** ** The flags store: a fetched batch of messages *)

Lemma collectNewFlags_flagPairs state messages :
  flagsReducer.collectNewFlags state messages =
    foldl (collectStep state) ([], false) (flagPairs messages).
Proof.
  unfold flagsReducer.collectNewFlags, flagPairs.
  generalize (@nil (string * PerFlagState), false).
  induction messages as [|msg messages IH]; intros acc; [done|].
  cbn [foldl mbind list_bind]. rewrite foldl_app, <- IH. f_equal.
  generalize (default [] (flags msg)). clear.
  intros fl. revert acc. induction fl as [|flag fl IH]; intros acc; [done|].
  cbn [foldl fmap list_fmap]. rewrite <- IH. f_equal.
  destruct acc as [newState stateChanged]. reflexivity.
Qed.

Lemma elem_of_flagPairs messages flag i :
  (i, flag) ∈ flagPairs messages ↔ broughtBy messages flag i.
Proof.
  unfold flagPairs, broughtBy. rewrite list_elem_of_bind. split.
  - intros (msg & Hin & Hmsg).
    apply list_elem_of_fmap in Hin as (f & [= -> ->] & Hf). eauto.
  - intros (msg & Hmsg & <- & Hf). exists msg. split; [|done].
    apply list_elem_of_fmap. eauto.
Qed.

(** What the loops have gathered after a run over the pairs [l]: every entry
    of [newState] is [true] and stands for a pair of [l] the state did not
    record; every such pair has its entry; [stateChanged] is still [false]
    only if nothing was gathered, all pairs being recorded already; and it is
    [true] only if some pair was not recorded. *)
Lemma collect_invariant state l :
  let acc := foldl (collectStep state) ([], false) l in
  (∀ flag perFlag i v,
     JsObject.get acc.1 flag = Some perFlag → perFlag !! i = Some v →
     v = true ∧ (i, flag) ∈ l ∧ recorded state flag i = false)
  ∧ (∀ flag i,
       (i, flag) ∈ l → recorded state flag i = false →
       ∃ perFlag, JsObject.get acc.1 flag = Some perFlag
                  ∧ perFlag !! i = Some true)
  ∧ (acc.2 = false →
       acc.1 = [] ∧ ∀ flag i, (i, flag) ∈ l → recorded state flag i = true)
  ∧ (acc.2 = true → ∃ flag i, (i, flag) ∈ l ∧ recorded state flag i = false).
Proof.
  induction l as [|[j g] l IH] using rev_ind; cbn zeta.
  - split; [|split; [|split]].
    + intros flag perFlag i v Hget. discriminate Hget.
    + intros flag i Hin. by apply elem_of_nil in Hin.
    + intros _. split; [done|]. intros flag i Hin. by apply elem_of_nil in Hin.
    + intros Hch. discriminate Hch.
  - rewrite foldl_snoc. cbn zeta in IH.
    destruct (foldl (collectStep state) ([], false) l) as [newState stateChanged].
    destruct IH as (IH1 & IH2 & IH3 & IH4). cbn [fst snd] in *.
    unfold collectStep; cbn [fst snd].
    destruct (recorded state g j) eqn:Hrec; cbn [negb fst snd].
    + split; [|split; [|split]].
      * intros flag perFlag i v Hget Hi.
        destruct (IH1 _ _ _ _ Hget Hi) as (-> & Hin & Hr).
        repeat split; [|done]. apply elem_of_app. by left.
      * intros flag i [Hin|Hin]%elem_of_app Hr; [by apply IH2|].
        apply list_elem_of_singleton in Hin as [= -> ->]. congruence.
      * intros Hch. destruct (IH3 Hch) as [-> Hall]. split; [done|].
        intros flag i [Hin|Hin]%elem_of_app; [by apply Hall|].
        by apply list_elem_of_singleton in Hin as [= -> ->].
      * intros Hch. destruct (IH4 Hch) as (flag & i & Hin & Hr).
        exists flag, i. split; [|done]. apply elem_of_app. by left.
    + split; [|split; [|split]].
      * intros flag perFlag i v. rewrite get_set.
        destruct (decide (g = flag)) as [<-|Hne].
        -- intros [= <-]. destruct (decide (j = i)) as [<-|Hji].
           ++ rewrite lookup_insert_eq. intros [= <-].
              repeat split; [|done]. apply elem_of_app. right.
              apply list_elem_of_singleton. done.
           ++ rewrite lookup_insert_ne by done.
              destruct (JsObject.get newState g) as [perFlag|] eqn:Hget;
                cbn [default]; [|by rewrite lookup_empty].
              intros Hi. destruct (IH1 _ _ _ _ Hget Hi) as (-> & Hin & Hr).
              repeat split; [|done]. apply elem_of_app. by left.
        -- intros Hget Hi. destruct (IH1 _ _ _ _ Hget Hi) as (-> & Hin & Hr).
           repeat split; [|done]. apply elem_of_app. by left.
      * intros flag i Hin Hr. rewrite get_set.
        destruct (decide (g = flag)) as [<-|Hne].
        -- eexists. split; [done|].
           destruct (decide (j = i)) as [<-|Hji];
             [by rewrite lookup_insert_eq|].
           rewrite lookup_insert_ne by done.
           apply elem_of_app in Hin as [Hin|Hin].
           ++ destruct (IH2 _ _ Hin Hr) as (perFlag & -> & Hi). done.
           ++ apply list_elem_of_singleton in Hin as [= ->]. done.
        -- apply elem_of_app in Hin as [Hin|Hin]; [by apply IH2|].
           apply list_elem_of_singleton in Hin as [= _ ->]. done.
      * intros Hch. discriminate Hch.
      * intros _. exists g, j. split; [|done]. apply elem_of_app. right.
        apply list_elem_of_here.
Qed.

Lemma elem_of_mergedKeys (l : list string) (key : string) :
  key ∈ foldl (λ (seen : list string) key,
                 if decide (key ∈ seen) then seen else (seen ++ [key])%list)
              [] l
  ↔ key ∈ l.
Proof.
  induction l as [|k l IH] using rev_ind; [done|].
  rewrite foldl_snoc, elem_of_app, list_elem_of_singleton, <- IH.
  case_decide as Hk; [|rewrite elem_of_app, list_elem_of_singleton; tauto].
  split; [tauto|]. by intros [?| ->].
Qed.

(** Building an object from the entries of a list of keys. *)
Lemma get_foldl_set {V} (F : string → option V) (acc : JsObject.t V)
    (ks : list string) (key : string) :
  JsObject.get
    (foldl (λ acc key, match F key with
                       | Some v => JsObject.set acc key v
                       | None => acc
                       end) acc ks) key
  = if decide (key ∈ ks)
    then match F key with Some v => Some v | None => JsObject.get acc key end
    else JsObject.get acc key.
Proof.
  induction ks as [|k ks IH] using rev_ind.
  - by rewrite decide_False by apply not_elem_of_nil.
  - rewrite foldl_snoc. destruct (decide (k = key)) as [->|Hne].
    + rewrite (decide_True (P := key ∈ (ks ++ [key])%list))
        by (apply elem_of_app; right; apply list_elem_of_here).
      destruct (F key) as [v|]; [apply get_set_eq|].
      rewrite IH. by destruct (decide (key ∈ ks)).
    + assert (Hiff : key ∈ (ks ++ [k])%list ↔ key ∈ ks).
      { rewrite elem_of_app, list_elem_of_singleton.
        split; [intros [?|?]; [done | congruence] | by left]. }
      rewrite (decide_ext _ _ _ _ Hiff), <- IH.
      destruct (F k); [by apply get_set_ne | done].
Qed.

(** What a merged object holds under a key. *)
Lemma get_deeperMerge (obj1 obj2 : FlagsState) (key : string) :
  JsObject.get (deeperMerge obj1 obj2) key =
    match JsObject.get obj1 key, JsObject.get obj2 key with
    | None, v2 => v2
    | Some v1, None => Some v1
    | Some v1, Some v2 => Some (v2 ∪ v1)
    end.
Proof.
  unfold deeperMerge.
  set (F := λ key : string,
         match JsObject.get obj1 key, JsObject.get obj2 key with
         | None, v2 => v2
         | Some v1, None => Some v1
         | Some v1, Some v2 => Some (v2 ∪ v1)
         end).
  set (ks := foldl _ [] _).
  assert (Hfold : ∀ acc l,
    foldl (λ acc key,
             match JsObject.get obj1 key, JsObject.get obj2 key with
             | None, Some v2 => JsObject.set acc key v2
             | Some v1, None => JsObject.set acc key v1
             | Some v1, Some v2 => JsObject.set acc key (v2 ∪ v1)
             | None, None => acc
             end) acc l
    = foldl (λ acc key, match F key with
                        | Some v => JsObject.set acc key v
                        | None => acc
                        end) acc l).
  { intros acc l. revert acc. induction l as [|k l IH]; intros acc; [done|].
    cbn [foldl]. rewrite IH. f_equal. unfold F.
    by destruct (JsObject.get obj1 k), (JsObject.get obj2 k). }
  rewrite Hfold, get_foldl_set. fold (F key).
  destruct (decide (key ∈ ks)) as [Hin|Hnin]; [by destruct (F key)|].
  assert (Hnone : (key ∉ JsObject.keys obj1) ∧ (key ∉ JsObject.keys obj2)).
  { unfold ks in Hnin. rewrite elem_of_mergedKeys, elem_of_app in Hnin. tauto. }
  destruct Hnone as [H1%get_None_keys H2%get_None_keys].
  unfold F. by rewrite H1, H2.
Qed.

(** A merged state records what its second part holds, and otherwise what its
    first part records. *)
Lemma recorded_deeperMerge (obj1 obj2 : FlagsState) (flag : string) (i : Z) :
  recorded (deeperMerge obj1 obj2) flag i =
    match JsObject.get obj2 flag ≫= (λ perFlag, perFlag !! i) with
    | Some v => v
    | None => recorded obj1 flag i
    end.
Proof.
  unfold recorded. rewrite get_deeperMerge.
  destruct (JsObject.get obj1 flag) as [v1|], (JsObject.get obj2 flag) as [v2|];
    cbn [mbind option_bind]; try done.
  - rewrite lookup_union. by destruct (v2 !! i) as [[]|], (v1 !! i) as [[]|].
  - by destruct (v2 !! i) as [[]|].
Qed.

(** C2, as the code has it: a fetched batch is merged into the state.
    Afterwards a message id is recorded under a flag exactly when it was
    recorded before or some message of the batch has the id and carries the
    flag. *)
Theorem fetch_merges_batch_into_state
    (state : Ref FlagsState) (messages : list Message) (next : loc) :
  ∃ state' next',
    flagsReducer.reducer state (MESSAGE_FETCH_COMPLETE messages) next
      = Ok (state', next')
    ∧ ∀ flag i,
        recorded (obj state') flag i = true ↔
        recorded (obj state) flag i = true ∨ broughtBy messages flag i.
Proof.
  cbn [flagsReducer.reducer]. unfold flagsReducer.processFlagsForMessages.
  rewrite collectNewFlags_flagPairs.
  pose proof (collect_invariant (obj state) (flagPairs messages)) as Hinv.
  cbn zeta in Hinv.
  destruct (foldl (collectStep (obj state)) ([], false) (flagPairs messages))
    as [newState stateChanged].
  destruct Hinv as (Hin1 & Hin2 & Hin3 & _). cbn [fst snd] in *.
  destruct stateChanged.
  - eexists _, _. split; [reflexivity|]. intros flag i. cbn [obj].
    rewrite recorded_deeperMerge, <- elem_of_flagPairs.
    destruct (JsObject.get newState flag ≫= (λ perFlag, perFlag !! i))
      as [v|] eqn:Hnew.
    + apply bind_Some in Hnew as (perFlag & Hget & Hi).
      destruct (Hin1 _ _ _ _ Hget Hi) as (-> & Hin & _). tauto.
    + split; [tauto|]. intros [Hrec|Hin]; [done|].
      destruct (recorded (obj state) flag i) eqn:Hrec; [done|].
      destruct (Hin2 _ _ Hin Hrec) as (perFlag & Hget & Hi).
      rewrite Hget in Hnew. cbn in Hnew. congruence.
  - exists state, next. split; [reflexivity|]. intros flag i.
    split; [tauto|]. intros [Hrec|Hin%elem_of_flagPairs]; [done|].
    destruct (Hin3 eq_refl) as [_ Hall]. by apply Hall.
Qed.

(** Message 1 is read, and a fetch that brings no message leaves it read:
    what the state recorded before the fetch survives it. *)
Lemma fetch_keeps_recorded_flags :
  ¬ fetch_replaces_state_as_claimed readOne [] 4%positive.
Proof.
  intros (state' & next' & Hred & Hiff).
  assert (Hrun : flagsReducer.reducer readOne (MESSAGE_FETCH_COMPLETE [])
                   4%positive = Ok (readOne, 4%positive)) by reflexivity.
  rewrite Hrun in Hred. injection Hred as <- <-.
  destruct (proj1 (Hiff "read" 1) eq_refl) as (msg & Hin & _).
  by apply elem_of_nil in Hin.
Qed.

(** ** The flags store: adding a flag and removing it again *)

Lemma recorded_set state flag perFlag flag' i :
  recorded (JsObject.set state flag perFlag) flag' i =
    if decide (flag = flag') then truthy (perFlag !! i) else recorded state flag' i.
Proof. unfold recorded. rewrite get_set. by case_decide. Qed.

(** The state after the two changes: the flag's property is rewritten, the
    others are the ones of the state before. *)
Lemma scoped_add_then_remove state flag ids next :
  ∃ state1 next1 state2 next2,
    flagsReducer.reducer state (FlagChangeScoped "add" flag ids None) next
      = Ok (state1, next1)
    ∧ flagsReducer.reducer state1 (FlagChangeScoped "remove" flag ids None) next1
      = Ok (state2, next2)
    ∧ obj state2 =
        JsObject.set (obj state) flag
          (foldl (λ o message, delete message o)
             (foldl (λ perFlag message, <[message := true]> perFlag)
                (default ∅ (JsObject.get (obj state) flag)) ids) ids).
Proof.
  destruct ids as [|i ids].
  - exists state, next. eexists _, _. repeat split; reflexivity.
  - eexists _, _, _, _.
    split; [apply addFlagsForMessages_one_flag|]. split; [reflexivity|].
    cbn [obj]. by rewrite get_set_eq, set_set.
Qed.

(** C5, as the code has it: when none of the ids is recorded under the flag
    beforehand, adding the flag to them and removing it again gives a state
    that records the same flags for the same messages; and when the state has
    a property for the flag that holds none of the ids, the state after is
    equal to the state before, property by property. *)
Theorem add_then_remove_restores
    (state : Ref FlagsState) (flag : string) (ids : list Z) (next : loc) :
  (∀ i, i ∈ ids → recorded (obj state) flag i = false) →
  ∃ state1 next1 state2 next2,
    flagsReducer.reducer state (FlagChangeScoped "add" flag ids None) next
      = Ok (state1, next1)
    ∧ flagsReducer.reducer state1 (FlagChangeScoped "remove" flag ids None) next1
      = Ok (state2, next2)
    ∧ sameFlags (obj state2) (obj state)
    ∧ ∀ perFlag,
        JsObject.get (obj state) flag = Some perFlag →
        (∀ i, i ∈ ids → perFlag !! i = None) →
        obj state2 = obj state.
Proof.
  intros Hfresh.
  destruct (scoped_add_then_remove state flag ids next)
    as (state1 & next1 & state2 & next2 & Hadd & Hremove & Hobj).
  exists state1, next1, state2, next2.
  split; [done|]. split; [done|]. rewrite Hobj. split.
  - intros flag' i. rewrite recorded_set.
    destruct (decide (flag = flag')) as [<-|Hne]; [|done].
    rewrite lookup_foldl_delete.
    destruct (decide (i ∈ ids)) as [Hin|Hnin]; [by rewrite Hfresh|].
    rewrite lookup_foldl_insert, decide_False by done.
    unfold recorded. by destruct (JsObject.get (obj state) flag).
  - intros perFlag Hget Hnone. rewrite Hget. cbn [default].
    apply set_get_id. rewrite Hget. f_equal. apply map_eq. intros i.
    rewrite lookup_foldl_delete.
    destruct (decide (i ∈ ids)) as [Hin|Hnin]; [by rewrite Hnone|].
    by rewrite lookup_foldl_insert, decide_False.
Qed.

Lemma add_then_remove_restores_witness :
  ∃ state1 next1 state2 next2,
    flagsReducer.reducer starredFive (FlagChangeScoped "add" "read" [1; 2] None)
      4%positive = Ok (state1, next1)
    ∧ flagsReducer.reducer state1 (FlagChangeScoped "remove" "read" [1; 2] None)
        next1 = Ok (state2, next2)
    ∧ sameFlags (obj state2) (obj starredFive)
    ∧ ∀ perFlag,
        JsObject.get (obj starredFive) "read" = Some perFlag →
        (∀ i, i ∈ [1; 2] → perFlag !! i = None) →
        obj state2 = obj starredFive.
Proof.
  apply (add_then_remove_restores starredFive "read" [1; 2] 4%positive).
  intros i _. reflexivity.
Defined.

(** Message 1 is read; marking it read and then unread leaves it unread: the
    state after is not the state before. *)
Lemma add_then_remove_forgets_recorded_flag :
  ¬ add_then_remove_restores_as_claimed readOne "read" [1] 4%positive.
Proof.
  intros (state1 & next1 & state2 & next2 & Hadd & Hremove & Hsame).
  assert (Hrun1 :
    flagsReducer.reducer readOne (FlagChangeScoped "add" "read" [1] None)
      4%positive = Ok (mkRef 4%positive (obj readOne), 5%positive))
    by (vm_compute; reflexivity).
  rewrite Hrun1 in Hadd. injection Hadd as <- <-.
  vm_compute in Hremove. injection Hremove as <- <-.
  specialize (Hsame "read" 1). vm_compute in Hsame. discriminate Hsame.
Qed.

(** ** Events without effect *)

(** A fetch that brings no flag the state does not record already. *)
Lemma fetch_nothing_new state messages next :
  (∀ flag i, broughtBy messages flag i → recorded (obj state) flag i = true) →
  flagsReducer.reducer state (MESSAGE_FETCH_COMPLETE messages) next
    = Ok (state, next).
Proof.
  intros Hall. cbn [flagsReducer.reducer].
  unfold flagsReducer.processFlagsForMessages.
  rewrite collectNewFlags_flagPairs.
  pose proof (collect_invariant (obj state) (flagPairs messages)) as Hinv.
  cbn zeta in Hinv.
  destruct (foldl (collectStep (obj state)) ([], false) (flagPairs messages))
    as [newState [|]]; [|done].
  destruct Hinv as (_ & _ & _ & Hin4). cbn [fst snd] in *.
  destruct (Hin4 eq_refl) as (flag & i & Hin%elem_of_flagPairs & Hrec).
  rewrite (Hall _ _ Hin) in Hrec. discriminate Hrec.
Qed.

(** Marking as read messages that are unread in no huddle. *)
Lemma removeItemsDeeply_absent (state : Ref UnreadHuddlesState) ids next :
  (∀ h i, h ∈ obj state → i ∈ unread_message_ids h → i ∉ ids) →
  unreadHuddlesReducer.removeItemsDeeply state ids next = Ok (state, next).
Proof.
  intros Habsent. unfold unreadHuddlesReducer.removeItemsDeeply.
  assert (Hall :
    forallb (λ h, forallb (λ i, bool_decide (i ∉ ids)) (unread_message_ids h))
            (obj state) = true); [|by rewrite Hall].
  apply forallb_forall. intros h Hh%list_elem_of_In.
  apply forallb_forall. intros i Hi%list_elem_of_In.
  apply bool_decide_eq_true. by eapply Habsent.
Qed.

(** C8: a new message that is not a message to a group, or that carries the
    "read" flag already, or that the local user sent, leaves the unread
    huddles as they are: the reducer returns the state it was given. *)
Theorem new_message_not_unread_is_noop
    (state : Ref UnreadHuddlesState) (message : Message) (ownUserId : Z)
    (next : loc) :
  type message ≠ private
  ∨ "read" ∈ default [] (flags message)
  ∨ sender_id message = ownUserId →
  unreadHuddlesReducer.reducer state (EVENT_NEW_MESSAGE message) ownUserId next
    = Ok (state, next).
Proof.
  intros Hcase. cbn [unreadHuddlesReducer.reducer].
  unfold unreadHuddlesReducer.eventNewMessage.
  assert (Hcond :
    negb (bool_decide (type message = private))
    || bool_decide ("read" ∈ default [] (flags message))
    || bool_decide (sender_id message = ownUserId) = true);
    [|by rewrite Hcond].
  rewrite !orb_true_iff, negb_true_iff, bool_decide_eq_false,
    !bool_decide_eq_true.
  tauto.
Qed.

Lemma new_message_not_unread_is_noop_witness :
  unreadHuddlesReducer.reducer huddle012
    (EVENT_NEW_MESSAGE (pmMessage 4 1 (Some ["read"]))) 1 4%positive
    = Ok (huddle012, 4%positive).
Proof.
  apply new_message_not_unread_is_noop. right. right. reflexivity.
Defined.

(** C4, as the code has it: the events on which a reducer returns the very
    state it was given, allocating nothing.  For the flags store: adding a
    flag to an empty list of messages, a new message with an empty flag list,
    a fetch that brings no flag not recorded already, and an action of another
    type.  For the unread huddles: a change of a flag other than "read", and
    marking as read messages that are unread in no huddle. *)
Theorem noop_events_return_input
    (state : Ref FlagsState) (huddles : Ref UnreadHuddlesState)
    (ownUserId : Z) (next : loc) :
  (∀ flag details,
     flagsReducer.reducer state (FlagChangeScoped "add" flag [] details) next
       = Ok (state, next))
  ∧ (∀ message,
       flags message = Some [] →
       flagsReducer.reducer state (EVENT_NEW_MESSAGE message) next
         = Ok (state, next))
  ∧ (∀ messages,
       (∀ flag i,
          broughtBy messages flag i → recorded (obj state) flag i = true) →
       flagsReducer.reducer state (MESSAGE_FETCH_COMPLETE messages) next
         = Ok (state, next))
  ∧ flagsReducer.reducer state OTHER_ACTION next = Ok (state, next)
  ∧ (∀ action,
       flag action ≠ "read" →
       unreadHuddlesReducer.reducer huddles (EVENT_UPDATE_MESSAGE_FLAGS action)
         ownUserId next = Ok (huddles, next))
  ∧ (∀ ids details,
       (∀ h i, h ∈ obj huddles → i ∈ unread_message_ids h → i ∉ ids) →
       unreadHuddlesReducer.reducer huddles
         (FlagChangeScoped "add" "read" ids details) ownUserId next
         = Ok (huddles, next)).
Proof.
  split; [|split; [|split; [|split; [|split]]]].
  - reflexivity.
  - intros message Hfl. rewrite reducer_new_message, Hfl. reflexivity.
  - intros messages Hall. by apply fetch_nothing_new.
  - reflexivity.
  - intros action Hflag. cbn [unreadHuddlesReducer.reducer].
    unfold unreadHuddlesReducer.eventUpdateMessageFlags.
    by rewrite bool_decide_false.
  - intros ids details Habsent. by apply removeItemsDeeply_absent.
Qed.

Lemma noop_events_return_input_witness :
  flagsReducer.reducer starredFive
    (EVENT_NEW_MESSAGE (streamMessage 9 (Some []))) 4%positive
    = Ok (starredFive, 4%positive)
  ∧ flagsReducer.reducer starredFive
      (MESSAGE_FETCH_COMPLETE [streamMessage 5 (Some ["starred"])]) 4%positive
    = Ok (starredFive, 4%positive)
  ∧ unreadHuddlesReducer.reducer huddle012
      (FlagChangeScoped "add" "starred" [1; 2; 3] None) 0 4%positive
    = Ok (huddle012, 4%positive)
  ∧ unreadHuddlesReducer.reducer huddle012
      (FlagChangeScoped "add" "read" [6; 7] None) 0 4%positive
    = Ok (huddle012, 4%positive).
Proof.
  destruct (noop_events_return_input starredFive huddle012 0 4%positive)
    as (_ & Hnew & Hfetch & _ & Hflag & Hread).
  split; [by apply Hnew|]. split; [|split].
  - apply Hfetch. intros flag i (msg & Hin & <- & Hflags).
    apply list_elem_of_singleton in Hin as ->.
    apply list_elem_of_singleton in Hflags as ->. reflexivity.
  - by apply Hflag.
  - apply Hread. intros h i Hh%list_elem_of_singleton Hi Hids. subst h.
    cbn in Hi.
    repeat (apply elem_of_cons in Hi as [->|Hi];
            [by repeat (apply elem_of_cons in Hids as [?|Hids]; [done|]);
                apply elem_of_nil in Hids|]).
    by apply elem_of_nil in Hi.
Defined.

(** Removing a flag from an empty list of messages changes no recorded flag,
    and yet the state that comes back is a new object. *)
Lemma scoped_remove_of_nothing_copies_state :
  ¬ noop_returns_input_as_claimed flagsReducer.initialState
      (FlagChangeScoped "remove" "read" [] None) firstFree.
Proof.
  intros Hclaim.
  specialize (Hclaim (mkRef 3%positive flagsReducer.initialState_fields)
                     4%positive eq_refl).
  discriminate Hclaim. intros flag i. reflexivity.
Qed.

(** ** The flags store: what a change for listed messages does *)

(** Adding a flag to listed messages: afterwards the flag is recorded for the
    listed messages and for those that had it, and the properties of the other
    flags are the ones of the state before. *)
Theorem scoped_add_effect
    (state : Ref FlagsState) (flag : string) (ids : list Z)
    (details : option (gmap Z (list Z))) (next : loc) :
  ∃ state' next',
    flagsReducer.reducer state (FlagChangeScoped "add" flag ids details) next
      = Ok (state', next')
    ∧ (∀ i, recorded (obj state') flag i = true ↔
            i ∈ ids ∨ recorded (obj state) flag i = true)
    ∧ (∀ other, other ≠ flag →
         JsObject.get (obj state') other = JsObject.get (obj state) other).
Proof.
  destruct ids as [|j ids].
  - exists state, next. split; [reflexivity|]. split; [|done].
    intros i. split; [by right|]. intros [Hin|Hrec]; [|done].
    by apply elem_of_nil in Hin.
  - rewrite reducer_scoped_add, addFlagsForMessages_one_flag.
    eexists _, _. split; [reflexivity|]. cbn [obj]. split.
    + intros i. rewrite recorded_set, decide_True by done.
      rewrite lookup_foldl_insert.
      destruct (decide (i ∈ j :: ids)) as [Hin|Hnin]; [by intuition|].
      unfold recorded. destruct (JsObject.get (obj state) flag); cbn [default].
      * split; [by right | by intros [?|?]].
      * rewrite lookup_empty. split; [done | by intros [?|?]].
    + intros other Hne. by apply get_set_ne.
Qed.

(** Removing a flag from listed messages: afterwards the flag is recorded for
    the messages that had it and are not listed, and the properties of the
    other flags are the ones of the state before. *)
Theorem scoped_remove_effect
    (state : Ref FlagsState) (flag : string) (ids : list Z)
    (details : option (gmap Z (list Z))) (next : loc) :
  ∃ state',
    flagsReducer.reducer state (FlagChangeScoped "remove" flag ids details) next
      = Ok (state', Pos.succ next)
    ∧ addr state' = next
    ∧ (∀ i, recorded (obj state') flag i = true ↔
            (i ∉ ids) ∧ recorded (obj state) flag i = true)
    ∧ (∀ other, other ≠ flag →
         JsObject.get (obj state') other = JsObject.get (obj state) other).
Proof.
  rewrite reducer_scoped_remove. unfold flagsReducer.removeFlagForMessages.
  eexists. split; [reflexivity|]. cbn [obj addr]. split; [done|]. split.
  - intros i. rewrite recorded_set, decide_True by done.
    rewrite lookup_foldl_delete.
    destruct (decide (i ∈ ids)) as [Hin|Hnin];
      [split; [done | by intros [? _]]|].
    unfold recorded. destruct (JsObject.get (obj state) flag); cbn [default].
    + split; [done | by intros [_ ?]].
    + rewrite lookup_empty. split; [done | by intros [_ ?]].
  - intros other Hne. by apply get_set_ne.
Qed.

(** ** The flags store: where the returned state comes from *)

(** Every action is answered with a state, except a new message without a
    flag list; and the state returned is the object given, the constant
    [initialState], or an object at the next free address. *)
Theorem reducer_result_provenance
    (state : Ref FlagsState) (action : Action) (next : loc) :
  match flagsReducer.reducer state action next with
  | Ok (state', next') =>
      (state' = state ∧ next' = next)
      ∨ (state' = flagsReducer.initialState ∧ next' = next)
      ∨ (addr state' = next ∧ next' = Pos.succ next)
  | Throw _ => ∃ message, action = EVENT_NEW_MESSAGE message ∧ flags message = None
  end.
Proof.
  assert (Hadd : ∀ st ids fl,
    match flagsReducer.addFlagsForMessages st ids fl next with
    | Ok (state', next') =>
        (state' = st ∧ next' = next)
        ∨ (addr state' = next ∧ next' = Pos.succ next)
    | Throw _ => False
    end).
  { intros st ids fl. unfold flagsReducer.addFlagsForMessages.
    destruct (_ || _); [by left | by right]. }
  destruct action as [h| | | |messages|message|action|];
    [..|rewrite reducer_new_message| |]; cbn [flagsReducer.reducer].
  - by right; left.
  - by right; left.
  - by right; left.
  - by right; left.
  - unfold flagsReducer.processFlagsForMessages.
    destruct (flagsReducer.collectNewFlags _ _) as [newState [|]];
      [by right; right | by left].
  - destruct (flags message) as [fl|] eqn:Hfl; [|by eauto].
    specialize (Hadd state [id message] fl).
    destruct (flagsReducer.addFlagsForMessages _ _ _ _) as [[state' next']|];
      [|done].
    destruct Hadd as [?|?]; [by left | by right; right].
  - unfold flagsReducer.eventUpdateMessageFlags.
    destruct (all action && bool_decide (op action = "add")).
    { specialize (Hadd flagsReducer.initialState (allMessages action)
                       [flag action]).
      destruct (flagsReducer.addFlagsForMessages _ _ _ _) as [[state' next']|];
        [|done].
      destruct Hadd as [?|?]; [by right; left | by right; right]. }
    destruct (all action && bool_decide (op action = "remove"));
      [by right; right|].
    destruct (bool_decide (op action = "add")).
    { specialize (Hadd state (messages action) [flag action]).
      destruct (flagsReducer.addFlagsForMessages _ _ _ _) as [[state' next']|];
        [|done].
      destruct Hadd as [?|?]; [by left | by right; right]. }
    destruct (bool_decide (op action = "remove")); [by right; right | by left].
  - by left.
Qed.

(** ** The flags store: the known flags keep their properties *)

Section JsObject_keeps.
Context {V : Type}.
Implicit Types (o a b : JsObject.t V) (k : string) (v : V).

Lemma is_Some_get_set o k k' v :
  is_Some (JsObject.get o k) → is_Some (JsObject.get (JsObject.set o k' v) k).
Proof. rewrite get_set. by case_decide. Qed.

Lemma is_Some_get_spread a b k :
  is_Some (JsObject.get a k) → is_Some (JsObject.get (JsObject.spread a b) k).
Proof.
  unfold JsObject.spread. revert a.
  induction b as [|[k' v'] b IH]; intros a Ha; [done|].
  cbn [foldl]. apply IH. by apply is_Some_get_set.
Qed.

End JsObject_keeps.

Lemma initialState_hasKnownFlags :
  hasKnownFlags (obj flagsReducer.initialState).
Proof. intros flag Hflag. by apply keys_get_Some. Qed.

Lemma addFlagsForMessages_hasKnownFlags state ids fl next state' next' :
  hasKnownFlags (obj state) →
  flagsReducer.addFlagsForMessages state ids fl next = Ok (state', next') →
  hasKnownFlags (obj state').
Proof.
  intros Hknown. unfold flagsReducer.addFlagsForMessages.
  destruct (_ || _); intros [= <- <-]; [done|].
  intros flag Hflag. apply is_Some_get_spread. by apply Hknown.
Qed.

(** No event takes away the property of a known flag: a state that has a
    property for each of the seven flags is followed by such a state.  (The
    initial state is one, so every state reached from it is one.) *)
Theorem known_flags_kept
    (state : Ref FlagsState) (action : Action) (next : loc)
    (state' : Ref FlagsState) (next' : loc) :
  hasKnownFlags (obj state) →
  flagsReducer.reducer state action next = Ok (state', next') →
  hasKnownFlags (obj state').
Proof.
  intros Hknown.
  destruct action as [h| | | |messages|message|action|];
    [..|rewrite reducer_new_message| |]; cbn [flagsReducer.reducer].
  - intros [= <- <-]. apply initialState_hasKnownFlags.
  - intros [= <- <-]. apply initialState_hasKnownFlags.
  - intros [= <- <-]. apply initialState_hasKnownFlags.
  - intros [= <- <-]. apply initialState_hasKnownFlags.
  - unfold flagsReducer.processFlagsForMessages.
    destruct (flagsReducer.collectNewFlags _ _) as [newState [|]];
      intros [= <- <-]; [|done].
    intros flag [perFlag Hget]%Hknown. cbn [obj].
    rewrite get_deeperMerge, Hget. by destruct (JsObject.get newState flag).
  - destruct (flags message) as [fl|]; [|done].
    by apply addFlagsForMessages_hasKnownFlags.
  - unfold flagsReducer.eventUpdateMessageFlags.
    destruct (all action && bool_decide (op action = "add")).
    { apply addFlagsForMessages_hasKnownFlags, initialState_hasKnownFlags. }
    destruct (all action && bool_decide (op action = "remove")).
    { intros [= <- <-] flag Hflag. apply is_Some_get_set. by apply Hknown. }
    destruct (bool_decide (op action = "add")).
    { by apply addFlagsForMessages_hasKnownFlags. }
    destruct (bool_decide (op action = "remove")); intros [= <- <-]; [|done].
    intros flag Hflag. apply is_Some_get_set. by apply Hknown.
  - by intros [= <- <-].
Qed.

Lemma known_flags_kept_witness :
  hasKnownFlags
    (JsObject.set flagsReducer.initialState_fields "bogus" {[ 1 := true ]}).
Proof.
  apply (known_flags_kept flagsReducer.initialState
           (FlagChangeScoped "add" "bogus" [1] None) firstFree
           (mkRef 3%positive
              (JsObject.set flagsReducer.initialState_fields "bogus"
                 {[ 1 := true ]}))
           4%positive).
  - apply initialState_hasKnownFlags.
  - reflexivity.
Defined.

(** ** The unread huddles: the test suite of the repository

    The tests of [unreadHuddlesReducer-test.js], run on the reducer above.
    [toBe] asks for the same object, [toEqual] for the same contents.  In the
    tests of new messages the local user is user 1, one of the recipients. *)

Example test_account_switch_resets_state :
  ∃ state',
    unreadHuddlesReducer.reducer huddle012 ACCOUNT_SWITCH 0 4%positive
      = Ok (state', 4%positive)
    ∧ obj state' = [].
Proof. eexists. split; reflexivity. Qed.

Example test_register_complete_replaces_state :
  ∃ state',
    unreadHuddlesReducer.reducer (mkRef 3%positive [])
      (REGISTER_COMPLETE
         (mkRef 4%positive [ mkUnreadHuddle "0,1,2" [1; 2; 4; 5] ]))
      0 5%positive = Ok (state', 5%positive)
    ∧ obj state' = [ mkUnreadHuddle "0,1,2" [1; 2; 4; 5] ].
Proof. eexists. split; reflexivity. Qed.

Example test_new_message_id_already_there :
  let state := mkRef 3%positive [ mkUnreadHuddle "1,2,3" [1; 2; 3] ] in
  unreadHuddlesReducer.reducer state (EVENT_NEW_MESSAGE (pmMessage 2 2 (Some [])))
    1 4%positive = Ok (state, 4%positive).
Proof. vm_compute. reflexivity. Qed.

Example test_new_message_not_group :
  let state := mkRef 3%positive [ mkUnreadHuddle "1,2,3" [1; 2; 3] ] in
  unreadHuddlesReducer.reducer state
    (EVENT_NEW_MESSAGE (streamMessage 4 (Some []))) 1 4%positive
    = Ok (state, 4%positive).
Proof. reflexivity. Qed.

Example test_new_message_read_flag :
  let state := mkRef 3%positive [] in
  unreadHuddlesReducer.reducer state
    (EVENT_NEW_MESSAGE (pmMessage 4 2 (Some ["read"]))) 1 4%positive
    = Ok (state, 4%positive).
Proof. reflexivity. Qed.

Example test_new_message_appended :
  ∃ state' next',
    unreadHuddlesReducer.reducer
      (mkRef 3%positive [ mkUnreadHuddle "1,2,3" [1; 2; 3] ])
      (EVENT_NEW_MESSAGE (pmMessage 4 2 (Some []))) 1 4%positive
      = Ok (state', next')
    ∧ obj state' = [ mkUnreadHuddle "1,2,3" [1; 2; 3; 4] ].
Proof. eexists _, _. split; [vm_compute; reflexivity | reflexivity]. Qed.

Example test_new_message_new_huddle :
  ∃ state' next',
    unreadHuddlesReducer.reducer
      (mkRef 3%positive [ mkUnreadHuddle "0,3,4" [1; 2; 3] ])
      (EVENT_NEW_MESSAGE (pmMessage 4 2 (Some []))) 1 4%positive
      = Ok (state', next')
    ∧ obj state' = [ mkUnreadHuddle "0,3,4" [1; 2; 3];
                     mkUnreadHuddle "1,2,3" [4] ].
Proof. eexists _, _. split; [vm_compute; reflexivity | reflexivity]. Qed.

Example test_flag_not_read :
  let state := mkRef 3%positive [] in
  unreadHuddlesReducer.reducer state
    (FlagChangeScoped "add" "starred" [1; 2; 3] None) 0 4%positive
    = Ok (state, 4%positive).
Proof. reflexivity. Qed.

Example test_ids_not_in_state :
  let state :=
    mkRef 3%positive [ mkUnreadHuddle "0,1,2" [1; 2; 3; 4; 5];
                       mkUnreadHuddle "0,3,4" [4; 5] ] in
  unreadHuddlesReducer.reducer state
    (FlagChangeScoped "add" "read" [6; 7] None) 0 4%positive
    = Ok (state, 4%positive).
Proof. vm_compute. reflexivity. Qed.

Example test_ids_in_state_removed :
  ∃ state' next',
    unreadHuddlesReducer.reducer
      (mkRef 3%positive [ mkUnreadHuddle "0,1,2" [1; 2; 3];
                          mkUnreadHuddle "0,3,4" [4; 5] ])
      (FlagChangeScoped "add" "read" [3; 4; 5; 6] None) 0 4%positive
      = Ok (state', next')
    ∧ obj state' = [ mkUnreadHuddle "0,1,2" [1; 2] ].
Proof. eexists _, _. split; [vm_compute; reflexivity | reflexivity]. Qed.

Example test_remove_adds_to_unreads :
  ∃ state' next',
    unreadHuddlesReducer.reducer
      (mkRef 3%positive [ mkUnreadHuddle "0,1,2" [1; 2; 3; 4; 100] ])
      (FlagChangeScoped "remove" "read" [10; 11; 12] (Some detail_10_11_12))
      0 4%positive = Ok (state', next')
    ∧ obj state' = [ mkUnreadHuddle "0,1,2" [1; 2; 3; 4; 10; 11; 100];
                     mkUnreadHuddle "0,1,2,3" [12] ].
Proof. eexists _, _. split; [vm_compute; reflexivity | reflexivity]. Qed.

Example test_all_resets_state :
  unreadHuddlesReducer.reducer
    (mkRef 3%positive [ mkUnreadHuddle "0,1,2" [1; 2; 3; 4; 5] ])
    (FlagChangeAll "add" "read" []) 0 4%positive
    = Ok (unreadHuddlesReducer.NULL_ARRAY, 4%positive).
Proof. reflexivity. Qed.

(** ** The flags store: what a new message does *)

Section JsObject_spread.
Context {V : Type}.
Implicit Types (o a b : JsObject.t V) (k : string) (v : V).

Lemma keys_set o k v :
  JsObject.keys (JsObject.set o k v) =
    if decide (k ∈ JsObject.keys o) then JsObject.keys o
    else (JsObject.keys o ++ [k])%list.
Proof.
  unfold JsObject.keys. induction o as [|[k' v'] o IH]; cbn; [done|].
  destruct (decide (k = k')) as [->|Hne]; cbn.
  - by rewrite decide_True by apply list_elem_of_here.
  - rewrite IH. destruct (decide (k ∈ o.*1)) as [Hin|Hnin].
    + by rewrite decide_True by by apply list_elem_of_further.
    + rewrite decide_False; [done|]. by intros [?|?]%elem_of_cons.
Qed.

Lemma wf_set o k v : JsObject.wf o → JsObject.wf (JsObject.set o k v).
Proof.
  unfold JsObject.wf. rewrite keys_set. case_decide as Hin; [done|].
  intros Hwf. apply NoDup_app. split; [done|]. split; [|apply NoDup_singleton].
  intros k' Hk' ->%list_elem_of_singleton. done.
Qed.

(** [{ ...a, ...b }] holds what [b] holds, and otherwise what [a] holds. *)
Lemma get_spread a b k :
  JsObject.wf b →
  JsObject.get (JsObject.spread a b) k =
    match JsObject.get b k with
    | Some v => Some v
    | None => JsObject.get a k
    end.
Proof.
  unfold JsObject.spread, JsObject.wf, JsObject.keys. revert a.
  induction b as [|[k0 v0] b IH]; intros a Hwf; [done|].
  apply NoDup_cons in Hwf as [Hk0 Hwf]. cbn [fst] in Hk0.
  cbn [foldl fst snd JsObject.get]. rewrite (IH _ Hwf). destruct (decide (k = k0)) as [->|Hne].
  - apply get_None_keys in Hk0. rewrite Hk0. apply get_set_eq.
  - destruct (JsObject.get b k); [done|]. by apply get_set_ne.
Qed.

End JsObject_spread.

(** What the loop over the flags of [addFlagsForMessages] builds. *)
Lemma addFlagsForMessages_newState (state : FlagsState) (ids : list Z)
    (fl : list string) :
  let newState :=
    foldl (λ newState flag,
             JsObject.set newState flag
               (foldl (λ perFlag message, <[message := true]> perFlag)
                      (default ∅ (JsObject.get state flag)) ids))
          ([] : FlagsState) fl in
  JsObject.wf newState
  ∧ ∀ flag,
      JsObject.get newState flag =
        if decide (flag ∈ fl)
        then Some (foldl (λ perFlag message, <[message := true]> perFlag)
                         (default ∅ (JsObject.get state flag)) ids)
        else None.
Proof.
  cbn zeta. split.
  - induction fl as [|f fl IH] using rev_ind; [apply NoDup_nil_2|].
    rewrite foldl_snoc. by apply wf_set.
  - intros flag.
    pose proof (get_foldl_set
      (λ flag, Some (foldl (λ perFlag message, <[message := true]> perFlag)
                           (default ∅ (JsObject.get state flag)) ids))
      [] fl flag) as Hget.
    cbn beta iota in Hget. exact Hget.
Qed.

(** What [addFlagsForMessages] records: each listed message under each listed
    flag, besides what was recorded. *)
Lemma addFlagsForMessages_recorded state ids fl next :
  ∃ state' next',
    flagsReducer.addFlagsForMessages state ids fl next = Ok (state', next')
    ∧ ∀ flag i,
        recorded (obj state') flag i = true ↔
        (flag ∈ fl ∧ i ∈ ids) ∨ recorded (obj state) flag i = true.
Proof.
  unfold flagsReducer.addFlagsForMessages.
  destruct (bool_decide (length ids = 0%nat) || bool_decide (length fl = 0%nat))
    eqn:Hempty.
  - exists state, next. split; [done|]. intros flag i. split; [by right|].
    intros [[Hflag Hi]|Hrec]; [|done]. exfalso.
    apply orb_true_iff in Hempty as [Hnil|Hnil];
      apply bool_decide_eq_true, nil_length_inv in Hnil; subst;
      by eapply elem_of_nil.
  - eexists _, _. split; [reflexivity|]. intros flag i. cbn [obj].
    destruct (addFlagsForMessages_newState (obj state) ids fl) as [Hwf Hget].
    cbn zeta in Hwf, Hget. unfold recorded at 1.
    rewrite (get_spread _ _ _ Hwf), Hget.
    destruct (decide (flag ∈ fl)) as [Hflag|Hflag].
    + rewrite lookup_foldl_insert.
      destruct (decide (i ∈ ids)) as [Hi|Hi]; [by split; [left|]|].
      unfold recorded. destruct (JsObject.get (obj state) flag); cbn [default].
      * split; [by right | by intros [[_ ?]|?]].
      * rewrite lookup_empty. split; [done | by intros [[_ ?]|?]].
    + fold (recorded (obj state) flag i). split; [by right | by intros [[? _]|?]].
Qed.

(** The names [flagsStateToStringList] gives for a message. *)
Lemma elem_of_flagsStateToStringList (flags : FlagsState) (i : Z) (key : string) :
  key ∈ flagsStateToStringList flags i ↔ recorded flags key i = true.
Proof.
  unfold flagsStateToStringList.
  rewrite list_elem_of_In, filter_In, <- list_elem_of_In.
  fold (recorded flags key i). split; [by intros [_ ?]|].
  intros Hrec. split; [by eapply recorded_keys | done].
Qed.

(** A new message with a flag list: afterwards the message is recorded under
    each flag of its list, and nothing else has changed: every other pair of a
    flag and a message is recorded exactly when it was before. *)
Theorem new_message_effect
    (state : Ref FlagsState) (message : Message) (fl : list string)
    (next : loc) :
  flags message = Some fl →
  ∃ state' next',
    flagsReducer.reducer state (EVENT_NEW_MESSAGE message) next
      = Ok (state', next')
    ∧ ∀ flag i,
        recorded (obj state') flag i = true ↔
        (i = id message ∧ flag ∈ fl) ∨ recorded (obj state) flag i = true.
Proof.
  intros Hfl. rewrite reducer_new_message, Hfl.
  destruct (addFlagsForMessages_recorded state [id message] fl next)
    as (state' & next' & Hrun & Hrec).
  exists state', next'. split; [done|]. intros flag i.
  rewrite Hrec, list_elem_of_singleton. tauto.
Qed.

Lemma new_message_effect_witness :
  ∃ state' next',
    flagsReducer.reducer starredFive
      (EVENT_NEW_MESSAGE (streamMessage 9 (Some ["read"; "mentioned"])))
      4%positive = Ok (state', next')
    ∧ ∀ flag i,
        recorded (obj state') flag i = true ↔
        (i = id (streamMessage 9 (Some ["read"; "mentioned"]))
         ∧ flag ∈ ["read"; "mentioned"])
        ∨ recorded (obj starredFive) flag i = true.
Proof. apply new_message_effect. reflexivity. Defined.

(** What the message list shows after a new message: the flags of the
    message are those of its flag list, besides those the state had recorded
    for its id. *)
Theorem new_message_then_flag_strings
    (state : Ref FlagsState) (message : Message) (fl : list string)
    (next : loc) :
  flags message = Some fl →
  ∃ state' next',
    flagsReducer.reducer state (EVENT_NEW_MESSAGE message) next
      = Ok (state', next')
    ∧ ∀ flag,
        flag ∈ flagsStateToStringList (obj state') (id message) ↔
        flag ∈ fl ∨ flag ∈ flagsStateToStringList (obj state) (id message).
Proof.
  intros Hfl. rewrite reducer_new_message, Hfl.
  destruct (addFlagsForMessages_recorded state [id message] fl next)
    as (state' & next' & Hrun & Hrec).
  exists state', next'. split; [done|]. intros flag.
  rewrite !elem_of_flagsStateToStringList, Hrec, list_elem_of_singleton. tauto.
Qed.

Lemma new_message_then_flag_strings_witness :
  ∃ state' next',
    flagsReducer.reducer starredFive
      (EVENT_NEW_MESSAGE (streamMessage 5 (Some ["read"]))) 4%positive
      = Ok (state', next')
    ∧ ∀ flag,
        flag ∈ flagsStateToStringList (obj state')
                 (id (streamMessage 5 (Some ["read"]))) ↔
        flag ∈ ["read"]
        ∨ flag ∈ flagsStateToStringList (obj starredFive)
                   (id (streamMessage 5 (Some ["read"]))).
Proof. apply new_message_then_flag_strings. reflexivity. Defined.

(** ** The flags store: doing the same thing twice *)

(** After a fetch, the state records what the batch brought. *)
Lemma fetch_records_batch state messages next :
  ∃ state' next',
    flagsReducer.reducer state (MESSAGE_FETCH_COMPLETE messages) next
      = Ok (state', next')
    ∧ ∀ flag i, broughtBy messages flag i → recorded (obj state') flag i = true.
Proof.
  cbn [flagsReducer.reducer]. unfold flagsReducer.processFlagsForMessages.
  rewrite collectNewFlags_flagPairs.
  pose proof (collect_invariant (obj state) (flagPairs messages)) as Hinv.
  cbn zeta in Hinv.
  destruct (foldl (collectStep (obj state)) ([], false) (flagPairs messages))
    as [newState stateChanged].
  destruct Hinv as (Hin1 & Hin2 & Hin3 & _). cbn [fst snd] in *.
  destruct stateChanged.
  - eexists _, _. split; [reflexivity|].
    intros flag i Hin%elem_of_flagPairs. cbn [obj].
    rewrite recorded_deeperMerge.
    destruct (recorded (obj state) flag i) eqn:Hrec.
    + destruct (JsObject.get newState flag ≫= (λ perFlag, perFlag !! i))
        as [v|] eqn:Hnew; [|done].
      apply bind_Some in Hnew as (perFlag & Hget & Hi).
      by destruct (Hin1 _ _ _ _ Hget Hi) as (-> & _ & _).
    + destruct (Hin2 _ _ Hin Hrec) as (perFlag & Hget & Hi).
      rewrite Hget. cbn. by rewrite Hi.
  - exists state, next. split; [reflexivity|].
    intros flag i Hin%elem_of_flagPairs.
    destruct (Hin3 eq_refl) as [_ Hall]. by apply Hall.
Qed.

(** Fetching the same batch again changes nothing: the second fetch returns
    the state of the first, the same object, and allocates nothing. *)
Theorem fetch_again_returns_same_state
    (state : Ref FlagsState) (messages : list Message) (next : loc) :
  ∃ state' next',
    flagsReducer.reducer state (MESSAGE_FETCH_COMPLETE messages) next
      = Ok (state', next')
    ∧ flagsReducer.reducer state' (MESSAGE_FETCH_COMPLETE messages) next'
      = Ok (state', next').
Proof.
  destruct (fetch_records_batch state messages next)
    as (state' & next' & Hrun & Hrec).
  exists state', next'. split; [done|]. by apply fetch_nothing_new.
Qed.

(** Adding a flag to the same messages a second time gives a state with the
    contents of the first, property by property. *)
Theorem scoped_add_idempotent
    (state : Ref FlagsState) (flag : string) (ids : list Z)
    (details : option (gmap Z (list Z))) (next : loc) :
  ∃ state1 next1 state2 next2,
    flagsReducer.reducer state (FlagChangeScoped "add" flag ids details) next
      = Ok (state1, next1)
    ∧ flagsReducer.reducer state1 (FlagChangeScoped "add" flag ids details) next1
      = Ok (state2, next2)
    ∧ obj state2 = obj state1.
Proof.
  rewrite reducer_scoped_add. destruct ids as [|i ids].
  - exists state, next, state, next. by repeat split.
  - rewrite addFlagsForMessages_one_flag. eexists _, _, _, _.
    split; [reflexivity|]. rewrite reducer_scoped_add.
    split; [apply addFlagsForMessages_one_flag|]. cbn [obj].
    rewrite get_set_eq, set_set. cbv [default from_option Datatypes.id].
    f_equal.
    apply map_eq. intros j. rewrite !lookup_foldl_insert.
    by destruct (decide (j ∈ i :: ids)).
Qed.

(** Removing a flag from all messages: afterwards no message is recorded
    under the flag, and the properties of the other flags are the ones of the
    state before. *)
Theorem remove_all_effect
    (state : Ref FlagsState) (flag : string) (universe : list Z) (next : loc) :
  ∃ state',
    flagsReducer.reducer state (FlagChangeAll "remove" flag universe) next
      = Ok (state', Pos.succ next)
    ∧ (∀ i, recorded (obj state') flag i = false)
    ∧ (∀ other, other ≠ flag →
         JsObject.get (obj state') other = JsObject.get (obj state) other).
Proof.
  exists (mkRef next (JsObject.set (obj state) flag ∅)).
  split; [reflexivity|]. cbn [obj]. split.
  - intros i. by rewrite recorded_set, decide_True.
  - intros other Hne. by apply get_set_ne.
Qed.

(** ** The first unread message of a narrow *)

Lemma find_none_or_first {A} (f : A → bool) (l : list A) :
  match List.find f l with
  | Some x => ∃ before after,
      l = (before ++ x :: after)%list ∧ f x = true
      ∧ ∀ y, y ∈ before → f y = false
  | None => ∀ y, y ∈ l → f y = false
  end.
Proof.
  induction l as [|a l IH]; cbn; [by intros y Hy%elem_of_nil|].
  destruct (f a) eqn:Hfa.
  - exists [], l. repeat split; [done|]. by intros y Hy%elem_of_nil.
  - destruct (List.find f l) as [x|].
    + destruct IH as (before & after & -> & Hx & Hbefore).
      exists (a :: before), after. repeat split; [done|].
      intros y [->|Hy]%elem_of_cons; [done | by apply Hbefore].
    + intros y [->|Hy]%elem_of_cons; [done | by apply IH].
Qed.

(** On a state that has the flags the client knows, [getFirstUnreadIdInNarrow]
    does not throw, and it returns the id of the first shown message that is
    not recorded as read: every message before it is read and it is not; it
    returns [null] exactly when every shown message is read. *)
Theorem getFirstUnreadIdInNarrow_first
    (messages : list Message) (flags : FlagsState) :
  hasKnownFlags flags →
  ∃ result,
    messageSelectors.getFirstUnreadIdInNarrow messages flags = Ok result
    ∧ match result with
      | Some i =>
          ∃ before msg after,
            messages = (before ++ msg :: after)%list ∧ id msg = i
            ∧ recorded flags "read" i = false
            ∧ ∀ m, m ∈ before → recorded flags "read" (id m) = true
      | None => ∀ m, m ∈ messages → recorded flags "read" (id m) = true
      end.
Proof.
  intros Hknown.
  destruct (Hknown "read") as [read Hread];
    [apply (bool_decide_unpack _); by vm_compute|].
  unfold messageSelectors.getFirstUnreadIdInNarrow. rewrite Hread.
  eexists. split; [reflexivity|].
  pose proof (find_none_or_first
    (λ msg, negb (truthy (read !! id msg))) messages) as Hfind.
  unfold recorded. rewrite Hread.
  destruct (List.find _ messages) as [msg|]; cbn [fmap option_fmap option_map].
  - destruct Hfind as (before & after & -> & Hmsg & Hbefore).
    exists before, msg, after. split; [done|]. split; [done|].
    split; [by apply negb_true_iff|].
    intros m Hm. by apply negb_false_iff, Hbefore.
  - intros m Hm. by apply negb_false_iff, Hfind.
Qed.

Lemma getFirstUnreadIdInNarrow_first_witness :
  ∃ result,
    messageSelectors.getFirstUnreadIdInNarrow
      [streamMessage 1 (Some []); streamMessage 2 (Some [])] (obj readOne)
      = Ok result
    ∧ match result with
      | Some i =>
          ∃ before msg after,
            [streamMessage 1 (Some []); streamMessage 2 (Some [])]
              = (before ++ msg :: after)%list ∧ id msg = i
            ∧ recorded (obj readOne) "read" i = false
            ∧ ∀ m, m ∈ before → recorded (obj readOne) "read" (id m) = true
      | None =>
          ∀ m, m ∈ [streamMessage 1 (Some []); streamMessage 2 (Some [])] →
               recorded (obj readOne) "read" (id m) = true
      end.
Proof.
  apply getFirstUnreadIdInNarrow_first.
  intros flag Hflag. apply keys_get_Some. exact Hflag.
Defined.

(** Without the property [read] the selector throws as soon as there is a
    message to look at, and answers [null] when there is none. *)
Lemma getFirstUnreadIdInNarrow_without_read
    (messages : list Message) (flags : FlagsState) :
  JsObject.get flags "read" = None →
  messageSelectors.getFirstUnreadIdInNarrow messages flags =
    if decide (messages = []) then Ok None else Throw "TypeError".
Proof.
  intros Hread. unfold messageSelectors.getFirstUnreadIdInNarrow.
  rewrite Hread. by destruct messages.
Qed.

(** Marking messages as read and then asking for the first unread one: when
    every shown message is among those marked, or was read already, there is
    none. *)
Theorem mark_read_then_no_unread
    (state : Ref FlagsState) (ids : list Z)
    (details : option (gmap Z (list Z))) (next : loc)
    (messages : list Message) :
  (∀ m, m ∈ messages →
        id m ∈ ids ∨ recorded (obj state) "read" (id m) = true) →
  ∃ state' next',
    flagsReducer.reducer state (FlagChangeScoped "add" "read" ids details) next
      = Ok (state', next')
    ∧ messageSelectors.getFirstUnreadIdInNarrow messages (obj state') = Ok None.
Proof.
  intros Hall. rewrite reducer_scoped_add.
  destruct (addFlagsForMessages_recorded state ids ["read"] next)
    as (state' & next' & Hrun & Hrec).
  exists state', next'. split; [done|].
  assert (Hread : ∀ m, m ∈ messages → recorded (obj state') "read" (id m) = true).
  { intros m Hm. apply Hrec. destruct (Hall m Hm) as [Hi|Hr]; [|by right].
    left. split; [apply list_elem_of_here | done]. }
  unfold messageSelectors.getFirstUnreadIdInNarrow.
  destruct (JsObject.get (obj state') "read") as [read|] eqn:Hget.
  - pose proof (find_none_or_first
      (λ msg, negb (truthy (read !! id msg))) messages) as Hfind.
    destruct (List.find _ messages) as [msg|]; [|done].
    destruct Hfind as (before & after & -> & Hmsg & _).
    assert (Hm : recorded (obj state') "read" (id msg) = true).
    { apply Hread, elem_of_app. right. apply list_elem_of_here. }
    unfold recorded in Hm. rewrite Hget in Hm. by rewrite Hm in Hmsg.
  - destruct messages as [|m messages]; [done|].
    assert (Hm : recorded (obj state') "read" (id m) = true)
      by apply Hread, list_elem_of_here.
    unfold recorded in Hm. by rewrite Hget in Hm.
Qed.

Lemma mark_read_then_no_unread_witness :
  ∃ state' next',
    flagsReducer.reducer readOne (FlagChangeScoped "add" "read" [2] None)
      4%positive = Ok (state', next')
    ∧ messageSelectors.getFirstUnreadIdInNarrow
        [streamMessage 1 (Some []); streamMessage 2 (Some [])] (obj state')
      = Ok None.
Proof.
  apply mark_read_then_no_unread. intros m Hm.
  apply elem_of_cons in Hm as [->|Hm]; [by right|].
  apply list_elem_of_singleton in Hm as ->. left. apply list_elem_of_here.
Defined.

(** ** Truncating an array for the log *)

Lemma relativeIndex_nonneg (len : nat) (k : Z) :
  (0 ≤ k)%Z → messageSelectors.relativeIndex len k = Nat.min (Z.to_nat k) len.
Proof.
  intros Hk. unfold messageSelectors.relativeIndex.
  case_decide; lia.
Qed.

Lemma relativeIndex_neg (len : nat) (k : Z) :
  (k < 0)%Z → messageSelectors.relativeIndex len k = (len - Z.to_nat (- k))%nat.
Proof.
  intros Hk. unfold messageSelectors.relativeIndex.
  case_decide; lia.
Qed.

(** With a positive [len], an array of at most [2 * len] elements is logged
    as it is; a longer one is logged as its length, its first [len] elements
    and its last [len] elements, which do not overlap: something lies between
    them. *)
Theorem truncateForLogging_ends {T} (arr : list T) (len : Z) :
  (0 < len)%Z →
  match messageSelectors.truncateForLogging arr len with
  | messageSelectors.whole arr' =>
      arr' = arr ∧ (Z.of_nat (length arr) ≤ 2 * len)%Z
  | messageSelectors.ends n start end_ =>
      n = length arr
      ∧ ∃ middle,
          arr = (start ++ middle ++ end_)%list
          ∧ length start = Z.to_nat len
          ∧ length end_ = Z.to_nat len
          ∧ middle ≠ []
  end.
Proof.
  intros Hlen. unfold messageSelectors.truncateForLogging.
  destruct (decide (Z.of_nat (length arr) ≤ 2 * len)%Z) as [Hshort|Hlong];
    [done|].
  split; [done|].
  set (n := Z.to_nat len). set (L := length arr).
  assert (HnL : (2 * n < L)%nat) by lia.
  assert (Hstart : messageSelectors.slice arr 0 (Some len) = take n arr).
  { unfold messageSelectors.slice.
    rewrite !relativeIndex_nonneg by lia. cbn [Z.to_nat Nat.min drop].
    f_equal. lia. }
  assert (Hend : messageSelectors.slice arr (- len) None = drop (L - n) arr).
  { unfold messageSelectors.slice. rewrite relativeIndex_neg by lia.
    rewrite Z.opp_involutive. apply take_ge. rewrite length_drop. lia. }
  rewrite Hstart, Hend.
  exists (take (L - 2 * n) (drop n arr)). split; [|split; [|split]].
  - rewrite <- (take_drop n arr) at 1. f_equal.
    rewrite <- (take_drop (L - 2 * n) (drop n arr)) at 1. f_equal.
    rewrite drop_drop. f_equal. lia.
  - rewrite length_take. lia.
  - rewrite length_drop. lia.
  - intros Hnil. apply (f_equal length) in Hnil.
    rewrite length_take, length_drop in Hnil. cbn in Hnil. lia.
Qed.

Lemma truncateForLogging_ends_witness :
  match messageSelectors.truncateForLogging [1; 2; 3; 4; 5] 2 with
  | messageSelectors.whole arr' =>
      arr' = [1; 2; 3; 4; 5] ∧ (Z.of_nat (length [1; 2; 3; 4; 5]) ≤ 2 * 2)%Z
  | messageSelectors.ends n start end_ =>
      n = length [1; 2; 3; 4; 5]
      ∧ ∃ middle,
          [1; 2; 3; 4; 5] = (start ++ middle ++ end_)%list
          ∧ length start = Z.to_nat 2
          ∧ length end_ = Z.to_nat 2
          ∧ middle ≠ []
  end.
Proof. apply (truncateForLogging_ends [1; 2; 3; 4; 5] 2). lia. Defined.

(** With [len] zero nothing is cut off: [arr.slice(-0)] is the whole array,
    so an array that is not empty is logged in full, as its own "end". *)
Theorem truncateForLogging_zero {T} (arr : list T) :
  arr ≠ [] →
  messageSelectors.truncateForLogging arr 0
    = messageSelectors.ends (length arr) [] arr.
Proof.
  intros Hne. unfold messageSelectors.truncateForLogging.
  rewrite decide_False by (destruct arr; [done | cbn; lia]).
  f_equal; unfold messageSelectors.slice; cbn [Z.opp];
    rewrite !relativeIndex_nonneg by lia; cbn [Z.to_nat Nat.min drop].
  - done.
  - apply take_ge. lia.
Qed.

Lemma truncateForLogging_zero_witness :
  messageSelectors.truncateForLogging [7; 8; 9] 0
    = messageSelectors.ends (length [7; 8; 9]) [] [7; 8; 9].
Proof. apply truncateForLogging_zero. discriminate. Defined.

(** ** The private messages of the narrow *)

(** The loop of [getPrivateMessages] from any point on: it goes on to the end
    when the messages it finds are private, and throws otherwise. *)
Lemma getPrivateMessages_loop (messages : gmap Z Message) (ids : list Z)
    (privateMessages : list Message) (unknownIds : list Z) :
  messageSelectors.forEach
    (λ '(privateMessages, unknownIds) id,
       match messages !! id with
       | Some msg =>
           if bool_decide (type msg = private)
           then Ok ((privateMessages ++ [msg])%list, unknownIds)
           else Throw "msg is a PM"
       | None => Ok (privateMessages, (unknownIds ++ [id])%list)
       end)
    (privateMessages, unknownIds) ids
  = if decide (Forall (λ msg, type msg = private) (omap (messages !!.) ids))
    then Ok ((privateMessages ++ omap (messages !!.) ids)%list,
             (unknownIds ++ List.filter (λ id, bool_decide (messages !! id = None))
                                        ids)%list)
    else Throw "msg is a PM".
Proof.
  revert privateMessages unknownIds.
  induction ids as [|i ids IH]; intros privateMessages unknownIds.
  - cbn. rewrite decide_True by constructor. by rewrite !app_nil_r.
  - cbn [messageSelectors.forEach omap list_omap List.filter].
    destruct (messages !! i) as [msg|] eqn:Hi.
    + rewrite (bool_decide_eq_false_2 (Some msg = None)) by done.
      destruct (bool_decide (type msg = private)) eqn:Hmsg.
      * apply bool_decide_eq_true in Hmsg. rewrite IH.
        destruct (decide (Forall _ (omap (messages !!.) ids))) as [Hall|Hnall].
        -- rewrite decide_True by by constructor.
           by rewrite <- app_assoc.
        -- rewrite decide_False; [done|]. by intros [_ ?]%Forall_cons.
      * apply bool_decide_eq_false in Hmsg.
        rewrite decide_False; [done|]. by intros [? _]%Forall_cons.
    + rewrite bool_decide_eq_true_2 by done. rewrite IH.
      destruct (decide (Forall _ (omap (messages !!.) ids))); [|done].
      by rewrite <- app_assoc.
Qed.

(** [getPrivateMessages] returns the messages found for the ids of the
    narrow, in the order of the ids, all of them private; it logs an error
    exactly when the state has no message for some id, and then reports those
    ids; and it throws, instead of returning, exactly when a message found is
    not private. *)
Theorem getPrivateMessages_found
    (ALL_PRIVATE_NARROW_STR : string) (narrows : gmap string (list Z))
    (messages : gmap Z Message) :
  let pmIds := default [] (narrows !! ALL_PRIVATE_NARROW_STR) in
  let unknownIds :=
    List.filter (λ id, bool_decide (messages !! id = None)) pmIds in
  match messageSelectors.getPrivateMessages ALL_PRIVATE_NARROW_STR narrows
          messages with
  | Ok (privateMessages, report) =>
      privateMessages = omap (messages !!.) pmIds
      ∧ Forall (λ msg, type msg = private) privateMessages
      ∧ (report = None ↔ ∀ id, id ∈ pmIds → is_Some (messages !! id))
      ∧ ∀ r, report = Some r →
             messageSelectors.unknown_ids r
               = messageSelectors.truncateForLogging unknownIds 10
             ∧ messageSelectors.all_ids r
               = messageSelectors.truncateForLogging pmIds 10
  | Throw e =>
      e = "msg is a PM"
      ∧ ∃ id msg, id ∈ pmIds ∧ messages !! id = Some msg ∧ type msg ≠ private
  end.
Proof.
  cbn zeta. unfold messageSelectors.getPrivateMessages.
  set (pmIds := default [] (narrows !! ALL_PRIVATE_NARROW_STR)).
  rewrite getPrivateMessages_loop. cbn [app].
  set (unknownIds := List.filter _ pmIds).
  assert (Hunknown : ∀ id, id ∈ unknownIds ↔ id ∈ pmIds ∧ messages !! id = None).
  { intros id. unfold unknownIds.
    by rewrite list_elem_of_In, filter_In, <- list_elem_of_In,
      bool_decide_eq_true. }
  destruct (decide (Forall _ (omap (messages !!.) pmIds))) as [Hall|Hnall].
  - split; [done|]. split; [done|]. split.
    + destruct (decide (0 < length unknownIds)%nat) as [Hpos|Hzero].
      * split; [done|]. intros Hknown. exfalso.
        destruct unknownIds as [|id rest] eqn:Hu; [cbn in Hpos; lia|].
        assert (Hid : id ∈ id :: rest) by apply list_elem_of_here.
        apply Hunknown in Hid as [Hin Hnone].
        destruct (Hknown id Hin) as [msg Hmsg]. congruence.
      * split; [|done]. intros _ id Hin.
        destruct (messages !! id) as [msg|] eqn:Hid; [by eexists|].
        assert (Hu : id ∈ unknownIds) by by apply Hunknown.
        destruct unknownIds; [by apply elem_of_nil in Hu | cbn in Hzero; lia].
    + intros r. destruct (decide (0 < length unknownIds)%nat); [|done].
      by intros [= <-].
  - split; [done|].
    apply not_Forall_Exists in Hnall; [|intros msg; apply _].
    apply Exists_exists in Hnall as (msg & Hin & Htype).
    apply list_elem_of_omap in Hin as (id & Hid & Hmsg). eauto.
Qed.

(** ** What a message has been *)

Lemma list_find_is_Some {A} (P : A → Prop) `{∀ x, Decision (P x)} (l : list A) :
  (match list_find P l with Some _ => true | None => false end) = true
  ↔ ∃ x, x ∈ l ∧ P x.
Proof.
  destruct (list_find P l) as [[i x]|] eqn:Hfind.
  - apply list_find_Some in Hfind as (Hi & Hx & _).
    split; [|done]. intros _. exists x. split; [|done].
    by eapply list_elem_of_lookup_2.
  - apply list_find_None in Hfind. split; [done|].
    intros (x & Hin & Hx). rewrite Forall_forall in Hfind. by destruct (Hfind x).
Qed.

(** [hasMessageEverHadTopic] and [hasMessageEverBeenInStream] answer [true]
    exactly when the message has the topic (is in the stream) now or an entry
    of its edit history names it as the previous one; they answer [null]
    exactly when it does not have it now and the edit history is [null]; and
    with an edit history that is [undefined] they answer for now only. *)
Theorem hasMessageEver_answers
    (message : messageSelectors.EditedMessage) (topic : string) (streamId : Z) :
  (messageSelectors.hasMessageEverHadTopic message topic = Some true ↔
     messageSelectors.subject message = topic
     ∨ ∃ edits messageEdit,
         messageSelectors.edit_history message = messageSelectors.history edits
         ∧ messageEdit ∈ edits
         ∧ messageSelectors.prev_topic messageEdit = Some topic)
  ∧ (messageSelectors.hasMessageEverHadTopic message topic = None ↔
       messageSelectors.subject message ≠ topic
       ∧ messageSelectors.edit_history message = messageSelectors.history_null)
  ∧ (messageSelectors.hasMessageEverBeenInStream message streamId = Some true ↔
       messageSelectors.stream_id message = Some streamId
       ∨ ∃ edits messageEdit,
           messageSelectors.edit_history message = messageSelectors.history edits
           ∧ messageEdit ∈ edits
           ∧ messageSelectors.prev_stream messageEdit = Some streamId)
  ∧ (messageSelectors.hasMessageEverBeenInStream message streamId = None ↔
       messageSelectors.stream_id message ≠ Some streamId
       ∧ messageSelectors.edit_history message = messageSelectors.history_null)
  ∧ (messageSelectors.edit_history message = messageSelectors.history_undefined →
       messageSelectors.hasMessageEverHadTopic message topic
         = Some (bool_decide (messageSelectors.subject message = topic))
       ∧ messageSelectors.hasMessageEverBeenInStream message streamId
         = Some (bool_decide (messageSelectors.stream_id message = Some streamId))).
Proof.
  unfold messageSelectors.hasMessageEverHadTopic,
    messageSelectors.hasMessageEverBeenInStream.
  destruct message as [subject stream_id edit_history]; cbn.
  destruct (decide (subject = topic)) as [Hs|Hs];
    destruct (decide (stream_id = Some streamId)) as [Hi|Hi];
    destruct edit_history as [| |edits];
    rewrite ?bool_decide_eq_true_2, ?bool_decide_eq_false_2 by done;
    repeat match goal with |- _ ∧ _ => split end;
    try (split; [by eauto | done]);
    try (split; [done | by intros [? ?]]);
    try (split; [done | by intros [?|(? & ? & ? & _)]]);
    try done.
  all: try (intros _; split; [done|]; by rewrite bool_decide_eq_true_2).
  all: split;
    [ intros [= Hfind];
      apply list_find_is_Some in Hfind as (messageEdit & Hin & Heq);
      right; by eauto
    | intros [?|(edits' & messageEdit & [= <-] & Hin & Heq)]; [done|];
      f_equal; apply list_find_is_Some; by eauto ].
Qed.

(** ** Who may create streams *)

Section permission_facts.

Import permissionSelectors.

Variable R : RoleValues.
Variable getHasUserPassedWaitingPeriod : PerAccountState → Z → bool.

(** The [switch] over the number of a policy. *)
Lemma policy_switch {A} (policy : Z) (a4 a3 a2 a1 d : A) :
  match policy with 4 => a4 | 3 => a3 | 2 => a2 | 1 => a1 | _ => d end =
    if decide (policy = 4) then a4
    else if decide (policy = 3) then a3
    else if decide (policy = 2) then a2
    else if decide (policy = 1) then a1
    else d.
Proof. by destruct policy as [|[[[]|[]|]|[[]|[]|]|]|]. Qed.

(** The decision both selectors take, from the number of the policy. *)
Lemma getCanCreatePublicStreams_policy state :
  getCanCreatePublicStreams R getHasUserPassedWaitingPeriod state =
    let role := getOwnUserRole R state in
    let policy := createPublicStreamPolicy (getRealm state) in
    if decide (policy = 4) then roleIsAtLeast role (Moderator R)
    else if decide (policy = 3) then
      if decide (role = Member R)
      then getHasUserPassedWaitingPeriod state (user_id (getOwnUser state))
      else roleIsAtLeast role (Member R)
    else if decide (policy = 2) then roleIsAtLeast role (Admin R)
    else if decide (policy = 1) then roleIsAtLeast role (Member R)
    else false.
Proof. unfold getCanCreatePublicStreams. apply policy_switch. Qed.

Lemma getCanCreatePrivateStreams_policy state :
  getCanCreatePrivateStreams R getHasUserPassedWaitingPeriod state =
    let role := getOwnUserRole R state in
    let policy := createPrivateStreamPolicy (getRealm state) in
    if decide (policy = 4) then roleIsAtLeast role (Moderator R)
    else if decide (policy = 3) then
      if decide (role = Member R)
      then getHasUserPassedWaitingPeriod state (user_id (getOwnUser state))
      else roleIsAtLeast role (Member R)
    else if decide (policy = 2) then roleIsAtLeast role (Admin R)
    else if decide (policy = 1) then roleIsAtLeast role (Member R)
    else false.
Proof. unfold getCanCreatePrivateStreams. apply policy_switch. Qed.

Lemma roleIsAtLeast_true thisRole thresholdRole :
  roleIsAtLeast thisRole thresholdRole = true ↔ (thisRole ≤ thresholdRole)%Z.
Proof. apply bool_decide_eq_true. Qed.

Lemma roleIsAtLeast_false thisRole thresholdRole :
  roleIsAtLeast thisRole thresholdRole = false ↔ (thresholdRole < thisRole)%Z.
Proof. unfold roleIsAtLeast. rewrite bool_decide_eq_false. lia. Qed.

(** In one realm, whoever has at least the privilege of a user who may create
    streams of a kind may create them too (for a member under the policy of
    full members, provided the waiting period has passed for them too).  This
    holds whatever the numbers of the roles are. *)
Theorem more_privilege_creates_more (state state' : PerAccountState) :
  getRealm state' = getRealm state →
  (getOwnUserRole R state' ≤ getOwnUserRole R state)%Z →
  (getHasUserPassedWaitingPeriod state (user_id (getOwnUser state)) = true →
   getHasUserPassedWaitingPeriod state' (user_id (getOwnUser state')) = true) →
  (getCanCreatePublicStreams R getHasUserPassedWaitingPeriod state = true →
   getCanCreatePublicStreams R getHasUserPassedWaitingPeriod state' = true)
  ∧ (getCanCreatePrivateStreams R getHasUserPassedWaitingPeriod state = true →
     getCanCreatePrivateStreams R getHasUserPassedWaitingPeriod state' = true)
  ∧ (getCanCreateWebPublicStreams R state = true →
     getCanCreateWebPublicStreams R state' = true).
Proof.
  intros Hrealm Hrole Hpassed.
  rewrite !getCanCreatePublicStreams_policy, !getCanCreatePrivateStreams_policy.
  unfold getCanCreateWebPublicStreams. cbn zeta. rewrite Hrealm.
  split; [|split].
  - repeat case_decide; rewrite ?roleIsAtLeast_true; try done; try lia;
      intros _; lia.
  - repeat case_decide; rewrite ?roleIsAtLeast_true; try done; try lia;
      intros _; lia.
  - destruct (_ || _); [done|].
    destruct (createWebPublicStreamPolicy (getRealm state));
      rewrite ?roleIsAtLeast_true; try done; lia.
Qed.

(** With roles numbered in the order of their privilege: an owner may create
    public and private streams under each of the four policies, and
    web-public ones exactly when the server and the realm have them and the
    policy is not "nobody"; a guest may create none, whatever the policies;
    and under a policy number that is none of the four, nobody may create
    public or private streams. *)
Theorem owners_may_guests_may_not (state : PerAccountState) :
  rolesOrdered R →
  (getOwnUserRole R state = Owner R →
     (createPublicStreamPolicy (getRealm state) ∈ [1; 2; 3; 4] →
        getCanCreatePublicStreams R getHasUserPassedWaitingPeriod state = true)
     ∧ (createPrivateStreamPolicy (getRealm state) ∈ [1; 2; 3; 4] →
          getCanCreatePrivateStreams R getHasUserPassedWaitingPeriod state = true)
     ∧ (getCanCreateWebPublicStreams R state = true ↔
          webPublicStreamsEnabled (getRealm state) = true
          ∧ enableSpectatorAccess (getRealm state) = true
          ∧ createWebPublicStreamPolicy (getRealm state) ≠ Nobody))
  ∧ (getOwnUserRole R state = Guest R →
       getCanCreatePublicStreams R getHasUserPassedWaitingPeriod state = false
       ∧ getCanCreatePrivateStreams R getHasUserPassedWaitingPeriod state = false
       ∧ getCanCreateWebPublicStreams R state = false)
  ∧ (createPublicStreamPolicy (getRealm state) ∉ [1; 2; 3; 4] →
       getCanCreatePublicStreams R getHasUserPassedWaitingPeriod state = false)
  ∧ (createPrivateStreamPolicy (getRealm state) ∉ [1; 2; 3; 4] →
       getCanCreatePrivateStreams R getHasUserPassedWaitingPeriod state = false).
Proof.
  intros (HOA & HAM & HMM & HMG).
  rewrite getCanCreatePublicStreams_policy, getCanCreatePrivateStreams_policy.
  unfold getCanCreateWebPublicStreams. cbn zeta.
  split; [|split; [|split]].
  - intros ->. split; [|split].
    + intros Hpolicy. repeat case_decide; rewrite ?roleIsAtLeast_true; try lia.
      exfalso. repeat (apply elem_of_cons in Hpolicy as [?|Hpolicy]; [done|]).
      by apply elem_of_nil in Hpolicy.
    + intros Hpolicy. repeat case_decide; rewrite ?roleIsAtLeast_true; try lia.
      exfalso. repeat (apply elem_of_cons in Hpolicy as [?|Hpolicy]; [done|]).
      by apply elem_of_nil in Hpolicy.
    + destruct (webPublicStreamsEnabled _), (enableSpectatorAccess _),
        (createWebPublicStreamPolicy _); cbn [negb orb];
        rewrite ?roleIsAtLeast_true; split; try done; try lia;
        try (by intros (? & ? & ?)); intros _; by repeat split.
  - intros ->. split; [|split].
    + repeat case_decide; rewrite ?roleIsAtLeast_false; try done; lia.
    + repeat case_decide; rewrite ?roleIsAtLeast_false; try done; lia.
    + destruct (_ || _); [done|].
      destruct (createWebPublicStreamPolicy _);
        rewrite ?roleIsAtLeast_false; try done; lia.
  - intros Hpolicy. rewrite !not_elem_of_cons in Hpolicy.
    destruct Hpolicy as (? & ? & ? & ? & _). by repeat case_decide.
  - intros Hpolicy. rewrite !not_elem_of_cons in Hpolicy.
    destruct Hpolicy as (? & ? & ? & ? & _). by repeat case_decide.
Qed.

(** With roles numbered in the order of their privilege, the policies for
    public and for private streams are nested as their names say: who may
    create under "administrators" (2) may under "moderators" (4), who may
    under "moderators" may under "full members" (3), and who may under "full
    members" may under "members" (1). *)
Theorem policies_nested (state state' : PerAccountState) :
  rolesOrdered R →
  getOwnUserRole R state' = getOwnUserRole R state →
  getHasUserPassedWaitingPeriod state' (user_id (getOwnUser state'))
    = getHasUserPassedWaitingPeriod state (user_id (getOwnUser state)) →
  ((createPublicStreamPolicy (getRealm state),
    createPublicStreamPolicy (getRealm state')) ∈ [(2, 4); (4, 3); (3, 1)] →
   getCanCreatePublicStreams R getHasUserPassedWaitingPeriod state = true →
   getCanCreatePublicStreams R getHasUserPassedWaitingPeriod state' = true)
  ∧ ((createPrivateStreamPolicy (getRealm state),
      createPrivateStreamPolicy (getRealm state')) ∈ [(2, 4); (4, 3); (3, 1)] →
     getCanCreatePrivateStreams R getHasUserPassedWaitingPeriod state = true →
     getCanCreatePrivateStreams R getHasUserPassedWaitingPeriod state' = true).
Proof.
  intros (HOA & HAM & HMM & HMG) Hrole Hpassed.
  rewrite !getCanCreatePublicStreams_policy, !getCanCreatePrivateStreams_policy.
  cbn zeta. rewrite Hrole, Hpassed.
  split; intros Hpolicies;
    repeat (apply elem_of_cons in Hpolicies as [[= -> ->]|Hpolicies];
            [cbn; repeat case_decide; rewrite ?roleIsAtLeast_true;
             try done; try lia; intros _; lia|]);
    by apply elem_of_nil in Hpolicies.
Qed.

End permission_facts.

Lemma sampleRoles_ordered : permissionSelectors.rolesOrdered sampleRoles.
Proof. repeat split. Qed.

Lemma more_privilege_creates_more_witness :
  permissionSelectors.getCanCreatePublicStreams sampleRoles waitingPeriodPassed
    (sampleState 200) = true.
Proof.
  destruct (more_privilege_creates_more sampleRoles waitingPeriodPassed
              (sampleState 400) (sampleState 200)) as (Hpublic & _ & _).
  - reflexivity.
  - cbn. lia.
  - reflexivity.
  - apply Hpublic. reflexivity.
Defined.

Lemma owners_may_guests_may_not_witness :
  permissionSelectors.getCanCreatePrivateStreams sampleRoles waitingPeriodPassed
    (sampleState 100) = true
  ∧ permissionSelectors.getCanCreatePrivateStreams sampleRoles
      waitingPeriodPassed (sampleState 600) = false.
Proof.
  split.
  - destruct (owners_may_guests_may_not sampleRoles waitingPeriodPassed
                (sampleState 100) sampleRoles_ordered) as (Howner & _).
    destruct (Howner eq_refl) as (_ & Hprivate & _).
    apply Hprivate. cbn. apply list_elem_of_further, list_elem_of_here.
  - destruct (owners_may_guests_may_not sampleRoles waitingPeriodPassed
                (sampleState 600) sampleRoles_ordered) as (_ & Hguest & _).
    by destruct (Hguest eq_refl) as (_ & Hprivate & _).
Defined.

Lemma policies_nested_witness :
  permissionSelectors.getCanCreatePrivateStreams sampleRoles waitingPeriodPassed
    (sampleStateModerators 200) = true.
Proof.
  destruct (policies_nested sampleRoles waitingPeriodPassed
              (sampleState 200) (sampleStateModerators 200) sampleRoles_ordered)
    as (_ & Hprivate).
  - reflexivity.
  - reflexivity.
  - apply Hprivate; [cbn; apply list_elem_of_here | reflexivity].
Defined.

(** ** The choices of privacy on the stream card *)

Section privacy_options.

Import permissionSelectors EditStreamCard.

Variable R : RoleValues.
Variable getHasUserPassedWaitingPeriod : PerAccountState → Z → bool.

(** The options in terms of the list of their keys: each option comes from
    its key by one rule. *)
Lemma useStreamPrivacyOptions_each state realmUrl initialValue isNewStream :
  let keys :=
    ((if webPublicStreamsEnabled (getRealm state)
         && enableSpectatorAccess (getRealm state)
      then ["web-public"] else [])
     ++ ["public"; "invite-only-public-history"; "invite-only"])%list in
  key <$> useStreamPrivacyOptions R getHasUserPassedWaitingPeriod state realmUrl
            initialValue isNewStream = keys
  ∧ ∀ o,
      o ∈ useStreamPrivacyOptions R getHasUserPassedWaitingPeriod state realmUrl
            initialValue isNewStream →
      key o ∈ keys
      ∧ disabled o =
          if decide (key o ≠ initialValue) then
            if negb isNewStream
               && negb (roleIsAtLeast (getOwnUserRole R state) (Admin R))
            then Some {| title := "Insufficient permission";
                         message :=
                           {| text := "Only organization administrators and owners can edit streams.";
                              values_realmName := None |};
                         learnMoreButton := None |}
            else if negb (canCreateFor R getHasUserPassedWaitingPeriod state (key o)) then
              Some {| title := "Insufficient permission";
                      message :=
                        if decide (key o = "web-public") then
                          explainCreateWebPublicStreamPolicy
                            (createWebPublicStreamPolicy (getRealm state))
                            (name (getRealm state))
                        else if decide (key o = "public") then
                          explainCreatePublicStreamPolicy
                            (createPublicStreamPolicy (getRealm state))
                            (name (getRealm state))
                        else
                          explainCreatePrivateStreamPolicy
                            (createPrivateStreamPolicy (getRealm state))
                            (name (getRealm state));
                      learnMoreButton :=
                        if roleIsAtLeast (getOwnUserRole R state) (Admin R)
                        then Some {| url_path := "/help/configure-who-can-create-streams";
                                     url_base := realmUrl;
                                     button_text := "Configure permissions" |}
                        else None |}
            else None
          else None.
Proof.
  cbn zeta. unfold useStreamPrivacyOptions, shouldDisableIfNotInitialValue,
    canCreateFor.
  destruct (webPublicStreamsEnabled (getRealm state)
            && enableSpectatorAccess (getRealm state));
    cbn [negb omap list_omap fmap list_fmap app];
    (split; [reflexivity|]);
    intros o Ho;
    repeat (apply elem_of_cons in Ho as [->|Ho];
            [cbn [key disabled]; split;
             [repeat first [apply list_elem_of_here | apply list_elem_of_further]
             |reflexivity]|]);
    by apply elem_of_nil in Ho.
Qed.

(** The options offered are "public" and the two private ones, in this order,
    preceded by "web-public" exactly when the server and the realm have
    web-public streams; and the option that is the stream's present value is
    never disabled. *)
Theorem privacy_options_offered
    (state : PerAccountState) (realmUrl initialValue : string)
    (isNewStream : bool) :
  key <$> useStreamPrivacyOptions R getHasUserPassedWaitingPeriod state realmUrl
            initialValue isNewStream
    = ((if webPublicStreamsEnabled (getRealm state)
           && enableSpectatorAccess (getRealm state)
        then ["web-public"] else [])
       ++ ["public"; "invite-only-public-history"; "invite-only"])%list
  ∧ ∀ o,
      o ∈ useStreamPrivacyOptions R getHasUserPassedWaitingPeriod state realmUrl
            initialValue isNewStream →
      key o = initialValue → disabled o = None.
Proof.
  destruct (useStreamPrivacyOptions_each state realmUrl initialValue isNewStream)
    as [Hkeys Heach].
  split; [exact Hkeys|]. intros o Ho Hkey.
  destruct (Heach o Ho) as [_ ->]. by rewrite decide_False by (by intros ?).
Qed.

(** Editing a stream without being at least an administrator: every option
    but the present value is disabled, for the reason that only administrators
    and owners can edit streams, and no button to configure permissions is
    offered. *)
Theorem editing_needs_admin
    (state : PerAccountState) (realmUrl initialValue : string) :
  roleIsAtLeast (getOwnUserRole R state) (Admin R) = false →
  ∀ o,
    o ∈ useStreamPrivacyOptions R getHasUserPassedWaitingPeriod state realmUrl
          initialValue false →
    key o ≠ initialValue →
    ∃ reason,
      disabled o = Some reason
      ∧ text (message reason)
          = "Only organization administrators and owners can edit streams."
      ∧ learnMoreButton reason = None.
Proof.
  intros Hrole o Ho Hkey.
  destruct (useStreamPrivacyOptions_each state realmUrl initialValue false)
    as [_ Heach].
  destruct (Heach o Ho) as [_ ->].
  rewrite decide_True by done. rewrite Hrole. cbn [negb andb]. by eexists.
Qed.

(** Creating a stream, or editing one as an administrator or owner: an option
    other than the present value can be chosen exactly when the user may
    create streams of its kind; and when it cannot, the button to configure
    permissions is offered exactly to administrators and owners. *)
Theorem option_enabled_when_permitted
    (state : PerAccountState) (realmUrl initialValue : string)
    (isNewStream : bool) :
  isNewStream = true
  ∨ roleIsAtLeast (getOwnUserRole R state) (Admin R) = true →
  ∀ o,
    o ∈ useStreamPrivacyOptions R getHasUserPassedWaitingPeriod state realmUrl
          initialValue isNewStream →
    key o ≠ initialValue →
    (disabled o = None ↔ canCreateFor R getHasUserPassedWaitingPeriod state (key o) = true)
    ∧ ∀ reason,
        disabled o = Some reason →
        (is_Some (learnMoreButton reason) ↔
         roleIsAtLeast (getOwnUserRole R state) (Admin R) = true).
Proof.
  intros Hcase o Ho Hkey.
  destruct (useStreamPrivacyOptions_each state realmUrl initialValue isNewStream)
    as [_ Heach].
  destruct (Heach o Ho) as [_ ->]. rewrite decide_True by done.
  assert (Hfirst :
    negb isNewStream
    && negb (roleIsAtLeast (getOwnUserRole R state) (Admin R)) = false).
  { destruct Hcase as [-> | ->]; [done | by rewrite andb_false_r]. }
  rewrite Hfirst.
  destruct (canCreateFor R getHasUserPassedWaitingPeriod state (key o)); cbn [negb].
  - split; [done|]. by intros reason.
  - split; [done|]. intros reason [= <-]. cbn [learnMoreButton].
    destruct (roleIsAtLeast _ _); split; try done;
      intros [button Hbutton]; discriminate Hbutton.
Qed.

End privacy_options.

Lemma editing_needs_admin_witness :
  ∃ o reason,
    o ∈ EditStreamCard.useStreamPrivacyOptions sampleRoles waitingPeriodPassed
          (sampleState 400) "https://example.org" "public" false
    ∧ EditStreamCard.key o = "invite-only"
    ∧ EditStreamCard.disabled o = Some reason
    ∧ EditStreamCard.text (EditStreamCard.message reason)
        = "Only organization administrators and owners can edit streams."
    ∧ EditStreamCard.learnMoreButton reason = None.
Proof.
  assert (Hin :
    ∃ o, o ∈ EditStreamCard.useStreamPrivacyOptions sampleRoles
               waitingPeriodPassed (sampleState 400) "https://example.org"
               "public" false
         ∧ EditStreamCard.key o = "invite-only").
  { eexists. split.
    - vm_compute. do 3 apply list_elem_of_further. apply list_elem_of_here.
    - reflexivity. }
  destruct Hin as (o & Ho & Hkey). exists o.
  destruct (editing_needs_admin sampleRoles waitingPeriodPassed
              (sampleState 400) "https://example.org" "public" eq_refl o Ho)
    as (reason & Hdisabled & Htext & Hbutton); [by rewrite Hkey|].
  exists reason. split; [done|]. split; [done|]. split; [done|]. by split.
Defined.

Lemma option_enabled_when_permitted_witness :
  ∃ o,
    o ∈ EditStreamCard.useStreamPrivacyOptions sampleRoles waitingPeriodPassed
          (sampleState 400) "https://example.org" "public" true
    ∧ EditStreamCard.key o = "invite-only"
    ∧ (EditStreamCard.disabled o = None ↔
       canCreateFor sampleRoles waitingPeriodPassed (sampleState 400)
         (EditStreamCard.key o) = true).
Proof.
  assert (Hin :
    ∃ o, o ∈ EditStreamCard.useStreamPrivacyOptions sampleRoles
               waitingPeriodPassed (sampleState 400) "https://example.org"
               "public" true
         ∧ EditStreamCard.key o = "invite-only").
  { eexists. split.
    - vm_compute. do 3 apply list_elem_of_further. apply list_elem_of_here.
    - reflexivity. }
  destruct Hin as (o & Ho & Hkey). exists o.
  split; [done|]. split; [done|].
  apply (option_enabled_when_permitted sampleRoles waitingPeriodPassed
           (sampleState 400) "https://example.org" "public" true);
    [by left | done | by rewrite Hkey].
Defined.

(** ** What an edit of a stream hands on *)

(** The values handed to [onComplete] after an edit say what the form holds:
    each value is the changed one where there is one and the initial one
    otherwise; and nothing at all is handed on exactly when no input has been
    touched. *)
Theorem changedValues_round_trip
    (initialValues : EditStreamCard.Values) (name description privacy : string) :
  let changed :=
    EditStreamCard.changedValues initialValues name description privacy in
  default (EditStreamCard.value_name initialValues)
    (EditStreamCard.changed_name changed) = name
  ∧ default (EditStreamCard.value_description initialValues)
      (EditStreamCard.changed_description changed) = description
  ∧ default (EditStreamCard.value_privacy initialValues)
      (EditStreamCard.changed_privacy changed) = privacy
  ∧ (EditStreamCard.areInputsTouched initialValues name description privacy
       = false
     ↔ changed = EditStreamCard.mkChangedValues None None None).
Proof.
  cbn zeta. unfold EditStreamCard.changedValues, EditStreamCard.areInputsTouched.
  cbn [EditStreamCard.changed_name EditStreamCard.changed_description
       EditStreamCard.changed_privacy].
  destruct (decide (EditStreamCard.value_name initialValues ≠ name)) as [Hn|Hn];
    destruct (decide (EditStreamCard.value_description initialValues
                      ≠ description)) as [Hd|Hd];
    destruct (decide (EditStreamCard.value_privacy initialValues ≠ privacy))
      as [Hp|Hp];
    try apply dec_stable in Hn; try apply dec_stable in Hd;
    try apply dec_stable in Hp;
    repeat match goal with |- _ ∧ _ => split end; try done;
    rewrite ?(bool_decide_eq_true_2 (name = _)),
      ?(bool_decide_eq_true_2 (description = _)),
      ?(bool_decide_eq_true_2 (privacy = _)),
      ?(bool_decide_eq_false_2 (name = _)),
      ?(bool_decide_eq_false_2 (description = _)),
      ?(bool_decide_eq_false_2 (privacy = _)) by done;
    try done; cbn; by rewrite ?orb_true_r.
Qed.

(** ** The names under a reaction *)

(** [getDisplayFullNames] gives one name for each id, in order; the own user
    is always shown as "You", muted or not; a user the state does not know is
    shown as "?", the own user too; and a warning is logged for exactly the
    ids of users not known, in order. *)
Theorem getDisplayFullNames_names
    (userIds : list Z) (backgroundData : message.BackgroundData)
    (translate : string → string) :
  let result := message.getDisplayFullNames userIds backgroundData translate in
  length result.1 = length userIds
  ∧ (∀ k,
       userIds !! k = Some (message.ownUser_user_id backgroundData) →
       result.1 !! k =
         Some (if decide (is_Some (message.allUsersById backgroundData
                                     !! message.ownUser_user_id backgroundData))
               then translate "You" else "?"))
  ∧ (∀ k id,
       userIds !! k = Some id →
       message.allUsersById backgroundData !! id = None →
       result.1 !! k = Some "?")
  ∧ result.2
      = List.filter
          (λ id, bool_decide (message.allUsersById backgroundData !! id = None))
          userIds.
Proof.
  cbn zeta. unfold message.getDisplayFullNames.
  set (nameOf := λ id : Z,
    match message.allUsersById backgroundData !! id with
    | None => "?"
    | Some full_name =>
        if decide (id = message.ownUser_user_id backgroundData)
        then translate "You"
        else if decide (id ∈ message.mutedUsers backgroundData)
        then translate "Muted user"
        else full_name
    end).
  assert (Hfold : ∀ l names warned,
    foldl (λ '(names, warned) id,
             match message.allUsersById backgroundData !! id with
             | None => ((names ++ ["?"])%list, (warned ++ [id])%list)
             | Some full_name =>
                 if decide (id = message.ownUser_user_id backgroundData)
                 then ((names ++ [translate "You"])%list, warned)
                 else if decide (id ∈ message.mutedUsers backgroundData)
                 then ((names ++ [translate "Muted user"])%list, warned)
                 else ((names ++ [full_name])%list, warned)
             end) (names, warned) l
    = ((names ++ (nameOf <$> l))%list,
       (warned ++ List.filter
          (λ id, bool_decide (message.allUsersById backgroundData !! id = None))
          l)%list)).
  { induction l as [|id l IH]; intros names warned.
    - cbn. by rewrite !app_nil_r.
    - cbn [foldl fmap list_fmap List.filter].
      assert (Hname : ∀ name,
        match message.allUsersById backgroundData !! id with
        | None => "?"
        | Some full_name =>
            if decide (id = message.ownUser_user_id backgroundData)
            then translate "You"
            else if decide (id ∈ message.mutedUsers backgroundData)
            then translate "Muted user"
            else full_name
        end = name →
        nameOf id = name) by done.
      destruct (message.allUsersById backgroundData !! id) as [full_name|].
      + rewrite (bool_decide_eq_false_2 (Some full_name = None)) by done.
        repeat case_decide; rewrite IH, <- app_assoc; cbn [app];
          by rewrite (Hname _ eq_refl).
      + rewrite bool_decide_eq_true_2 by done.
        rewrite IH, <- !app_assoc. cbn [app]. by rewrite (Hname _ eq_refl). }
  rewrite Hfold. cbn [fst snd app].
  split; [by rewrite length_fmap|]. split; [|split; [|done]].
  - intros k Hk. rewrite list_lookup_fmap, Hk. cbn. unfold nameOf.
    destruct (message.allUsersById backgroundData !! _) as [full_name|].
    + rewrite decide_True by done. by rewrite decide_True by by eexists.
    + by rewrite decide_False by by intros [? ?].
  - intros k id Hk Hid. rewrite list_lookup_fmap, Hk. cbn. unfold nameOf.
    by rewrite Hid.
Qed.

(** ** The unread huddles: marking messages unread *)

Section mark_unread.

Import unreadHuddlesReducer.

(** [addItemToHuddleArray] finds the entry and replaces it; entry by entry,
    that is [withUnread]. *)
Lemma withUnread_list_find place (state : UnreadHuddlesState) key id :
  withUnread place state key id =
    match list_find (λ h, user_ids_string h = key) state with
    | Some (index, h) =>
        if decide (id ∈ unread_message_ids h) then state
        else <[index := mkUnreadHuddle key (place (unread_message_ids h) id)]>
               state
    | None => (state ++ [mkUnreadHuddle key [id]])%list
    end.
Proof.
  induction state as [|h rest IH]; [done|].
  cbn [withUnread list_find]. destruct (decide (user_ids_string h = key)).
  - by destruct (decide (id ∈ unread_message_ids h)).
  - rewrite IH.
    destruct (list_find (λ h, user_ids_string h = key) rest) as [[index h']|];
      cbn [fmap option_fmap option_map prod_map fst snd]; [|done].
    unfold Datatypes.id. by destruct (decide (id ∈ unread_message_ids h')).
Qed.

Lemma addItemToHuddleArray_obj place (state : Ref UnreadHuddlesState) key id
    next :
  ∃ state' next',
    addItemToHuddleArray place state key id next = Ok (state', next')
    ∧ obj state' = withUnread place (obj state) key id.
Proof.
  rewrite withUnread_list_find. unfold addItemToHuddleArray.
  destruct (list_find _ (obj state)) as [[index h]|].
  - destruct (decide (id ∈ unread_message_ids h));
      eexists _, _; split; reflexivity.
  - eexists _, _. split; reflexivity.
Qed.

(** The loop of the reducer computes [markedUnread]. *)
Lemma forEachM_markedUnread ownUserId details ids
    (state : Ref UnreadHuddlesState) next :
  ∃ state' next',
    forEachM (λ newState id,
                match default ∅ details !! id with
                | Some user_ids =>
                    addItemToHuddleArray inOrder newState
                      (pmUnreadsKey ownUserId user_ids) id
                | None => mret newState
                end)
             state ids next = Ok (state', next')
    ∧ obj state' = markedUnread ownUserId details (obj state) ids.
Proof.
  unfold markedUnread. revert state next.
  induction ids as [|id ids IH]; intros state next.
  - by exists state, next.
  - cbn [forEachM foldl]. unfold mbind, M_bind, bind.
    destruct (default ∅ details !! id) as [user_ids|].
    + destruct (addItemToHuddleArray_obj inOrder state
                  (pmUnreadsKey ownUserId user_ids) id next)
        as (state1 & next1 & -> & <-).
      apply IH.
    + apply IH.
Qed.

Lemma reducer_mark_unread (state : Ref UnreadHuddlesState) ids details
    ownUserId next :
  ∃ state' next',
    reducer state (FlagChangeScoped "remove" "read" ids details) ownUserId next
      = Ok (state', next')
    ∧ obj state' = markedUnread ownUserId details (obj state) ids.
Proof. apply forEachM_markedUnread. Qed.

(** Where [inOrder] puts a new id. *)
Lemma inOrder_Permutation ids id : inOrder ids id ≡ₚ (ids ++ [id])%list.
Proof. apply merge_sort_Permutation. Qed.

Lemma inOrder_Sorted ids id : Sorted Z.le (inOrder ids id).
Proof. apply (Sorted_merge_sort Z.le). Qed.

Lemma inOrder_first id : inOrder [] id = [id].
Proof. reflexivity. Qed.

Lemma elem_of_inOrder ids id i : i ∈ inOrder ids id ↔ i ∈ ids ∨ i = id.
Proof.
  rewrite inOrder_Permutation, elem_of_app, list_elem_of_singleton. done.
Qed.

(** One step of the loop, read by key. *)
Lemma huddleKeys_withUnread place state key id :
  huddleKeys (withUnread place state key id) =
    if decide (key ∈ huddleKeys state) then huddleKeys state
    else (huddleKeys state ++ [key])%list.
Proof.
  unfold huddleKeys. induction state as [|h rest IH]; cbn; [done|].
  destruct (decide (user_ids_string h = key)) as [Hkey|Hkey].
  - destruct (decide (key ∈ user_ids_string h :: (user_ids_string <$> rest)))
      as [_|Hnin].
    + by destruct (decide (id ∈ unread_message_ids h)); cbn; rewrite ?Hkey.
    + destruct Hnin. rewrite Hkey. apply list_elem_of_here.
  - cbn. rewrite IH.
    destruct (decide (key ∈ user_ids_string <$> rest)) as [Hin|Hnin];
      destruct (decide (key ∈ user_ids_string h :: (user_ids_string <$> rest)))
        as [Hin'|Hnin']; try done.
    + destruct Hnin'. by apply list_elem_of_further.
    + by apply elem_of_cons in Hin' as [?|?].
Qed.

Lemma unreadOf_withUnread state key id key' :
  unreadOf (withUnread inOrder state key id) key' =
    if decide (key = key') then
      if decide (id ∈ unreadOf state key) then unreadOf state key
      else inOrder (unreadOf state key) id
    else unreadOf state key'.
Proof.
  induction state as [|h rest IH]; cbn [withUnread unreadOf].
  - repeat case_decide; subst; cbn in *; try done.
    match goal with H : _ ∈ [] |- _ => by apply elem_of_nil in H end.
  - destruct (decide (user_ids_string h = key)) as [<-|Hkey]; cbn [unreadOf].
    + repeat case_decide; subst;
        cbn [user_ids_string unread_message_ids] in *; done.
    + rewrite IH. repeat case_decide; subst; done.
Qed.

Lemma elem_of_unreadOf_withUnread state key id key' i :
  i ∈ unreadOf (withUnread inOrder state key id) key' ↔
  i ∈ unreadOf state key' ∨ (key = key' ∧ i = id).
Proof.
  rewrite unreadOf_withUnread. destruct (decide (key = key')) as [<-|Hne].
  - destruct (decide (id ∈ unreadOf state key)) as [Hin|Hnin].
    + split; [by left|]. by intros [?|[_ ->]].
    + rewrite elem_of_inOrder. split; [by intros [?|?]; eauto|].
      by intros [?|[_ ?]]; eauto.
  - split; [by left|]. by intros [?|[? _]].
Qed.

(** The loop, read by key. *)
Lemma elem_of_unreadOf_markedUnread ownUserId details state ids key i :
  i ∈ unreadOf (markedUnread ownUserId details state ids) key ↔
  i ∈ unreadOf state key ∨ (i ∈ ids ∧ resolvesTo ownUserId details key i).
Proof.
  unfold markedUnread, resolvesTo. revert state.
  induction ids as [|id ids IH]; intros state; cbn [foldl].
  - split; [by left|]. intros [?|[Hin _]]; [done|].
    by apply elem_of_nil in Hin.
  - rewrite IH. destruct (default ∅ details !! id) as [user_ids|] eqn:Hid.
    + rewrite elem_of_unreadOf_withUnread. split.
      * intros [[?|[<- ->]]|[Hin Hres]]; [by left| |].
        -- right. split; [apply list_elem_of_here | by eauto].
        -- right. split; [by apply list_elem_of_further | done].
      * intros [?|[[->|Hin]%elem_of_cons Hres]]; [by left; left| |].
        -- destruct Hres as (user_ids' & Hid' & <-).
           rewrite Hid in Hid'. injection Hid' as <-. left. by right.
        -- by right.
    + split.
      * intros [?|[Hin Hres]]; [by left|].
        right. split; [by apply list_elem_of_further | done].
      * intros [?|[[->|Hin]%elem_of_cons Hres]]; [by left| |by right].
        destruct Hres as (user_ids' & Hid' & _). congruence.
Qed.

Lemma markedUnread_preserves (P : list Z → Prop) ownUserId details state ids
    key :
  (∀ unread id, P unread → id ∉ unread → P (inOrder unread id)) →
  P (unreadOf state key) →
  P (unreadOf (markedUnread ownUserId details state ids) key).
Proof.
  intros Hstep. unfold markedUnread. revert state.
  induction ids as [|id ids IH]; intros state HP; cbn [foldl]; [done|].
  apply IH. destruct (default ∅ details !! id) as [user_ids|]; [|done].
  rewrite unreadOf_withUnread. repeat case_decide; subst; try done.
  by apply Hstep.
Qed.

Lemma huddleKeys_markedUnread ownUserId details state ids :
  ∃ newKeys,
    huddleKeys (markedUnread ownUserId details state ids)
      = (huddleKeys state ++ newKeys)%list
    ∧ NoDup newKeys
    ∧ ∀ key,
        key ∈ newKeys ↔
        (key ∉ huddleKeys state)
        ∧ ∃ id, id ∈ ids ∧ resolvesTo ownUserId details key id.
Proof.
  unfold markedUnread, resolvesTo. revert state.
  induction ids as [|id ids IH]; intros state; cbn [foldl].
  - exists []. split; [by rewrite app_nil_r|]. split; [constructor|].
    intros key. split; [by intros ?%elem_of_nil|].
    intros [_ (id & Hin & _)]. by apply elem_of_nil in Hin.
  - destruct (default ∅ details !! id) as [user_ids|] eqn:Hid.
    + set (k := pmUnreadsKey ownUserId user_ids).
      destruct (IH (withUnread inOrder state k id))
        as (newKeys & Hkeys & Hnodup & Hchar).
      rewrite huddleKeys_withUnread in Hkeys, Hchar.
      destruct (decide (k ∈ huddleKeys state)) as [Hk|Hk].
      * exists newKeys. split; [done|]. split; [done|].
        intros key. rewrite Hchar. split.
        -- intros [Hnew (id' & Hin & Hres)]. split; [done|].
           exists id'. split; [by apply list_elem_of_further | done].
        -- intros [Hnew (id' & [->|Hin]%elem_of_cons & Hres)].
           ++ destruct Hres as (user_ids' & Hid' & <-).
              rewrite Hid in Hid'. injection Hid' as <-. done.
           ++ split; [done|]. by exists id'.
      * exists (k :: newKeys). split; [by rewrite Hkeys, <- app_assoc|].
        split.
        -- constructor; [|done]. intros [Hnew _]%Hchar.
           apply Hnew, elem_of_app. right. apply list_elem_of_here.
        -- intros key. rewrite elem_of_cons, Hchar. split.
           ++ intros [->|[Hnew (id' & Hin & Hres)]].
              ** split; [done|]. exists id.
                 split; [apply list_elem_of_here | by eauto].
              ** split; [intros ?; apply Hnew, elem_of_app; by left|].
                 exists id'. split; [by apply list_elem_of_further | done].
           ++ intros [Hnew (id' & [->|Hin]%elem_of_cons & Hres)].
              ** destruct Hres as (user_ids' & Hid' & <-).
                 rewrite Hid in Hid'. injection Hid' as <-. by left.
              ** destruct (decide (key = k)) as [->|Hne]; [by left|].
                 right. split; [|by exists id'].
                 intros [?|?%list_elem_of_singleton]%elem_of_app; done.
    + destruct (IH state) as (newKeys & Hkeys & Hnodup & Hchar).
      exists newKeys. split; [done|]. split; [done|].
      intros key. rewrite Hchar. split.
      * intros [Hnew (id' & Hin & Hres)]. split; [done|].
        exists id'. split; [by apply list_elem_of_further | done].
      * intros [Hnew (id' & [->|Hin]%elem_of_cons & Hres)].
        -- destruct Hres as (user_ids' & Hid' & _). congruence.
        -- split; [done|]. by exists id'.
Qed.

(** The participants a key is made of. *)
Lemma StronglySorted_le_lt (l : list Z) :
  StronglySorted Z.le l → NoDup l → StronglySorted Z.lt l.
Proof.
  induction 1 as [|x l Hsorted IH Hall]; intros Hnodup; constructor.
  - apply IH. by apply NoDup_cons in Hnodup as [_ ?].
  - apply NoDup_cons in Hnodup as [Hx _].
    rewrite Forall_forall in Hall |- *. intros y Hy.
    specialize (Hall y Hy). assert (x ≠ y) by (by intros ->). lia.
Qed.

Lemma pmUnreadsKey_participants ownUserId user_ids :
  let participants := merge_sort Z.le (remove_dups (ownUserId :: user_ids)) in
  pmUnreadsKey ownUserId user_ids = String.concat "," (pretty <$> participants)
  ∧ StronglySorted Z.lt participants
  ∧ ∀ u, u ∈ participants ↔ u = ownUserId ∨ u ∈ user_ids.
Proof.
  cbn zeta. split; [reflexivity|]. split.
  - apply StronglySorted_le_lt.
    + apply (StronglySorted_merge_sort Z.le).
    + rewrite merge_sort_Permutation. apply NoDup_remove_dups.
  - intros u.
    by rewrite merge_sort_Permutation, elem_of_remove_dups, elem_of_cons.
Qed.

(** C7: marking messages unread.  The worked example (own user id 0,
    messages 10, 11 and 12 on the entry "0,1,2") gives the two entries
    stated, and an id an entry holds is not added again (messages 2 and 10 on
    an entry holding 1 to 4).  In general: the key of a conversation is the
    comma-joined list of its participants, the own user among them, each
    once, in ascending order, so the order of the recipients and their
    repetition do not matter; and for every state and every event, the
    entries keep their places and a new entry is appended, once, for each key
    resolved that had none; afterwards an entry holds an id exactly when it
    held it before or the event names the id and its recipients resolve to
    the entry's key; an entry without repeated ids stays so; and an entry in
    ascending order stays so. *)
Theorem mark_unread_joins_entries :
  (∃ state' next',
     unreadHuddlesReducer.reducer huddle012
       (FlagChangeScoped "remove" "read" [10; 11; 12] (Some detail_10_11_12))
       0 4%positive = Ok (state', next')
     ∧ obj state' = [ mkUnreadHuddle "0,1,2" [1; 2; 3; 10; 11];
                      mkUnreadHuddle "0,1,2,3" [12] ])
  ∧ (∃ state' next',
       unreadHuddlesReducer.reducer
         (mkRef 3%positive [ mkUnreadHuddle "0,1,2" [1; 2; 3; 4] ])
         (FlagChangeScoped "remove" "read" [2; 10]
            (Some {[ 2 := [1; 2]; 10 := [1; 2] ]}))
         0 4%positive = Ok (state', next')
       ∧ obj state' = [ mkUnreadHuddle "0,1,2" [1; 2; 3; 4; 10] ])
  ∧ (∀ ownUserId user_ids,
       ∃ participants,
         unreadHuddlesReducer.pmUnreadsKey ownUserId user_ids
           = String.concat "," (pretty <$> participants)
         ∧ StronglySorted Z.lt participants
         ∧ ∀ u, u ∈ participants ↔ u = ownUserId ∨ u ∈ user_ids)
  ∧ (∀ ownUserId user_ids user_ids',
       (∀ u, u = ownUserId ∨ u ∈ user_ids ↔ u = ownUserId ∨ u ∈ user_ids') →
       unreadHuddlesReducer.pmUnreadsKey ownUserId user_ids
         = unreadHuddlesReducer.pmUnreadsKey ownUserId user_ids')
  ∧ (∀ (state : Ref UnreadHuddlesState) ids details ownUserId next,
       ∃ state' next',
         unreadHuddlesReducer.reducer state
           (FlagChangeScoped "remove" "read" ids details) ownUserId next
           = Ok (state', next')
         ∧ (∃ newKeys,
              huddleKeys (obj state') = (huddleKeys (obj state) ++ newKeys)%list
              ∧ NoDup newKeys
              ∧ ∀ key,
                  key ∈ newKeys ↔
                  (key ∉ huddleKeys (obj state))
                  ∧ ∃ id, id ∈ ids ∧ resolvesTo ownUserId details key id)
         ∧ (∀ key i,
              i ∈ unreadOf (obj state') key ↔
              i ∈ unreadOf (obj state) key
              ∨ (i ∈ ids ∧ resolvesTo ownUserId details key i))
         ∧ (∀ key, NoDup (unreadOf (obj state) key) →
                   NoDup (unreadOf (obj state') key))
         ∧ (∀ key, Sorted Z.le (unreadOf (obj state) key) →
                   Sorted Z.le (unreadOf (obj state') key))).
Proof.
  split; [eexists _, _; split; [vm_compute; reflexivity | reflexivity]|].
  split; [eexists _, _; split; [vm_compute; reflexivity | reflexivity]|].
  split; [|split].
  - intros ownUserId user_ids. eexists.
    apply (pmUnreadsKey_participants ownUserId user_ids).
  - intros ownUserId user_ids user_ids' Hsame.
    destruct (pmUnreadsKey_participants ownUserId user_ids)
      as (-> & Hsorted & Hmem).
    destruct (pmUnreadsKey_participants ownUserId user_ids')
      as (-> & Hsorted' & Hmem').
    do 2 f_equal.
    apply (StronglySorted_unique_strong Z.lt); [intros; lia|done|done|].
    apply NoDup_Permutation.
    + rewrite merge_sort_Permutation. apply NoDup_remove_dups.
    + rewrite merge_sort_Permutation. apply NoDup_remove_dups.
    + intros u. by rewrite Hmem, Hmem'.
  - intros state ids details ownUserId next.
    destruct (reducer_mark_unread state ids details ownUserId next)
      as (state' & next' & Hrun & Hobj).
    exists state', next'. rewrite Hobj. split; [done|].
    split; [apply huddleKeys_markedUnread|].
    split; [intros key i; apply elem_of_unreadOf_markedUnread|]. split.
    + intros key. apply (markedUnread_preserves NoDup).
      intros unread id Hnodup Hid. rewrite inOrder_Permutation.
      apply NoDup_app. split; [done|]. split; [|apply NoDup_singleton].
      by intros i Hi ->%list_elem_of_singleton.
    + intros key. apply (markedUnread_preserves (Sorted Z.le)).
      intros unread id _ _. apply inOrder_Sorted.
Qed.

End mark_unread.
